(** * Interrupt arbitration between VAD and STT: a model of
    [livekit/agents/utils/interrupt_handler.py]

    The Python module is embedded shallowly.  Python [str] values are lists
    of Unicode code points; the three facts about Unicode the module relies
    on (which code points are whitespace, which are alphanumeric, and how a
    string is lowercased) are the fields of the class [UnicodeDB], so every
    result below holds for CPython's real tables.  The handler's methods are
    written in a small state-and-trace monad: the state is the object's
    fields, the trace records every call the method makes to the outside
    (logger, host callbacks, timer objects). *)

From Stdlib Require Import List ZArith NArith Bool Ascii String Lia.
Import ListNotations.

Set Implicit Arguments.

(* ===================================================================== *)
(** ** Python strings *)
(* ===================================================================== *)

Module PyStr.

(** A [str] is a sequence of code points. *)
Definition char := N.
Definition str := list char.

Definition SP : char := 32%N.          (* ' '  *)
Definition APOSTROPHE : char := 39%N.  (* '\'' *)
Definition HYPHEN : char := 45%N.      (* '-'  *)
Definition UNDERSCORE : char := 95%N.  (* '_'  *)

(** String literals of the source, as code-point lists. *)
Definition py (s : string) : str := map N_of_ascii (list_ascii_of_string s).

(** What the interpreter knows about Unicode.  [isspace] is
    [Py_UNICODE_ISSPACE] (used by [str.split], [str.strip] and the regex
    class [\s]), [isalnum] is [Py_UNICODE_ISALNUM] (the regex class [\w] is
    [isalnum] or underscore), [lower] is [str.lower].  The one law is that
    U+0020 is whitespace. *)
Class UnicodeDB := {
  isspace : char -> bool;
  isalnum : char -> bool;
  lower : str -> str;
  isspace_SP : isspace SP = true
}.

(** [a == b] on strings. *)
Fixpoint str_eqb (a b : str) : bool :=
  match a, b with
  | [], [] => true
  | x :: a', y :: b' => N.eqb x y && str_eqb a' b'
  | _, _ => false
  end.

(** [x in l] for a list of strings. *)
Definition list_contains (x : str) (l : list str) : bool :=
  existsb (str_eqb x) l.

(** [s.startswith(p)]. *)
Fixpoint startswith (p s : str) : bool :=
  match p, s with
  | [], _ => true
  | x :: p', y :: s' => N.eqb x y && startswith p' s'
  | _ :: _, [] => false
  end.

(** [sub in s] for strings: [sub] occurs somewhere in [s]. *)
Fixpoint str_contains (sub s : str) : bool :=
  startswith sub s ||
  match s with
  | [] => false
  | _ :: s' => str_contains sub s'
  end.

(** [sep.join(l)]. *)
Fixpoint join (sep : str) (l : list str) : str :=
  match l with
  | [] => []
  | [x] => x
  | x :: r => x ++ sep ++ join sep r
  end.

Section WithUnicode.
Context {U : UnicodeDB}.

(** [s.split()]: the maximal runs of non-whitespace, in order. *)
Fixpoint split (s : str) : list str :=
  match s with
  | [] => []
  | c :: r =>
      if isspace c then split r
      else match r with
           | [] => [[c]]
           | d :: _ =>
               if isspace d then [c] :: split r
               else match split r with
                    | t :: ts => (c :: t) :: ts
                    | [] => [[c]]
                    end
           end
  end.

(** [s.lstrip()], [s.rstrip()], [s.strip()]. *)
Fixpoint lstrip (s : str) : str :=
  match s with
  | [] => []
  | c :: r => if isspace c then lstrip r else s
  end.

Definition rstrip (s : str) : str := rev (lstrip (rev s)).

Definition strip (s : str) : str := rstrip (lstrip s).

(** The character class [[^\w\s'-]] of [_normalize]: [true] on the
    characters the class matches, i.e. the ones that get replaced. *)
Definition is_word (c : char) : bool := isalnum c || N.eqb c UNDERSCORE.

Definition punct (c : char) : bool :=
  negb (is_word c || isspace c || N.eqb c APOSTROPHE || N.eqb c HYPHEN).

(** [re.sub(r"[^\w\s'-]", ' ', s)]: the pattern matches one character at a
    time, each match is replaced by one space. *)
Definition re_sub_punct (s : str) : str :=
  map (fun c => if punct c then SP else c) s.

(** A token: non-empty and free of whitespace. *)
Definition is_token (t : str) : Prop :=
  t <> [] /\ Forall (fun c => isspace c = false) t.

(** No two whitespace characters in a row. *)
Fixpoint no_adjacent_space (s : str) : bool :=
  match s with
  | c :: (d :: _) as r => negb (isspace c && isspace d) && no_adjacent_space r
  | _ => true
  end.

(** The string is empty or begins with a non-whitespace character. *)
Definition starts_clean (s : str) : Prop :=
  match s with
  | [] => True
  | c :: _ => isspace c = false
  end.

End WithUnicode.

(** The tables restricted to ASCII: they agree with CPython on every string
    whose code points are below 128, and are used for the concrete runs. *)
Definition ascii_isspace (c : char) : bool :=
  ((9 <=? c) && (c <=? 13) || (28 <=? c) && (c <=? 32))%N.

Definition ascii_isalnum (c : char) : bool :=
  ((48 <=? c) && (c <=? 57) || (65 <=? c) && (c <=? 90)
   || (97 <=? c) && (c <=? 122))%N.

Definition ascii_lower (s : str) : str :=
  map (fun c => if ((65 <=? c) && (c <=? 90))%N then (c + 32)%N else c) s.

#[export] Instance AsciiDB : UnicodeDB := {|
  isspace := ascii_isspace;
  isalnum := ascii_isalnum;
  lower := ascii_lower;
  isspace_SP := eq_refl
|}.

End PyStr.
Import PyStr.

(* ===================================================================== *)
(** ** Data model *)
(* ===================================================================== *)

(** Clock readings ([time.time()]); the float is abstracted to a number of
    ticks, no property below depends on its value. *)
Definition Time := Z.

(** [class Transcript]. *)
Record Transcript := mkTranscript {
  text : str;
  is_final : bool;
  timestamp : Time
}.

(** [Transcript.__init__(text, is_final, timestamp)]: an omitted ([None]) or
    zero timestamp is falsy and is replaced by the current time [now]. *)
Definition Transcript_init (txt : str) (fin : bool) (ts : option Time)
    (now : Time) : Transcript :=
  {| text := txt;
     is_final := fin;
     timestamp := match ts with
                  | Some t => if Z.eqb t 0 then now else t
                  | None => now
                  end |}.

(** [class InterruptHandlerConfig], as stored after construction. *)
Record InterruptHandlerConfig := mkConfig {
  soft_words : list str;
  hard_words : list str;
  validation_window_ms : Z
}.

Definition default_soft_words : list str :=
  [py "yeah"; py "ok"; py "hmm"; py "right"; py "uh-huh"; py "mhm";
   py "uh huh"].

Definition default_hard_words : list str :=
  [py "wait"; py "stop"; py "no"; py "hold on"; py "pause"; py "cancel";
   py "hang on"; py "stop that"; py "stop it"].

(** [x or d] for an optional list argument: [None] and the empty list are
    both falsy. *)
Definition list_or {A} (x : option (list A)) (d : list A) : list A :=
  match x with
  | Some (a :: l) => a :: l
  | _ => d
  end.

(** [InterruptHandlerConfig.__init__]; an argument left out is [None] here,
    and [validation_window_ms] then takes its default 225. *)
Definition InterruptHandlerConfig_init {U : UnicodeDB}
    (soft hard : option (list str)) (window : option Z)
    : InterruptHandlerConfig :=
  {| soft_words := map lower (list_or soft default_soft_words);
     hard_words := map lower (list_or hard default_hard_words);
     validation_window_ms := match window with Some w => w | None => 225%Z end
  |}.

(** A [threading.Timer] object.  [timer_id] is the object's identity;
    [interval_ms] is the delay the source passes to the constructor (there
    as [ms / 1000.0] seconds). *)
Record Timer := mkTimer {
  timer_id : nat;
  interval_ms : Z;
  daemon : bool
}.

(** The fields of an [InterruptHandler].  [has_ignore_user_speech] is the
    truth value of [self.ignore_user_speech] (the callback is optional).
    [next_timer_id] is not a Python field: it is the allocator's counter,
    from which each new [Timer] object takes its identity. *)
Record InterruptHandler := mkHandler {
  cfg : InterruptHandlerConfig;
  has_ignore_user_speech : bool;
  _pending_vad : bool;
  _transcript_buffer : list Transcript;
  _timer : option Timer;
  next_timer_id : nat
}.

(** What [self.logger] is called with; the [_now()] prefix of each message
    is left out. *)
Inductive log_msg :=
| LogVadUserStart
| LogSttNoVadPending (txt : str)
| LogSttDuringPendingVad (combined norm : str)
| LogHardWordDetected (hard : str)
| LogOnlySoft
| LogNonSoftContent
| LogAgentSilent
| LogAgentStartedSpeaking
| LogAgentStoppedSpeaking
| LogTimerStarted (ms : Z)
| LogTimerExpired
| LogTimeoutAgentSpeaking
| LogTimeoutAgentSilent.

(** The exceptions a method can raise on its own (host callbacks are
    taken to return). *)
Inductive exn :=
| OverflowError.

(** Every call a method makes to the outside, in order; [Raise e] is the
    method ending by raising [e] to its caller. *)
Inductive event :=
| Logger (m : log_msg)
| StopAgentImmediately
| IgnoreUserSpeech
| ProcessUserSpeechNormally (t : Transcript)
| TimerCancel (id : nat)
| TimerStart (t : Timer)
| Raise (e : exn).

(** [float(n)] raises [OverflowError] when the integer [n] rounds to a
    double beyond the largest one, [2^1024 - 2^971]: from [2^1024 - 2^970]
    on.  [n / 1000.0] converts [n] first, so it raises on the same [n]. *)
Definition FLOAT_OVERFLOW : Z := (2 ^ 1024 - 2 ^ 970)%Z.

Definition int_overflows_float (n : Z) : bool :=
  (FLOAT_OVERFLOW <=? Z.abs n)%Z.

(** The three resolution callbacks, as opposed to logging and timer calls. *)
Definition is_resolution (e : event) : bool :=
  match e with
  | StopAgentImmediately | IgnoreUserSpeech | ProcessUserSpeechNormally _ =>
      true
  | _ => false
  end.

Definition resolutions (tr : list event) : list event :=
  filter is_resolution tr.

Definition is_timer_call (e : event) : bool :=
  match e with
  | TimerCancel _ | TimerStart _ => true
  | _ => false
  end.

Definition timer_calls (tr : list event) : list event :=
  filter is_timer_call tr.

(* ===================================================================== *)
(** ** The method monad *)
(* ===================================================================== *)

Module Method.

(** A method body: reads and writes the object's fields and appends to the
    trace of outside calls. *)
Definition M (A : Type) : Type :=
  InterruptHandler -> A * InterruptHandler * list event.

Definition ret {A} (a : A) : M A := fun h => (a, h, []).

Definition bind {A B} (m : M A) (k : A -> M B) : M B :=
  fun h =>
    let '(a, h1, tr1) := m h in
    let '(b, h2, tr2) := k a h1 in
    (b, h2, tr1 ++ tr2).

Definition gets {A} (f : InterruptHandler -> A) : M A :=
  fun h => (f h, h, []).

Definition modify (f : InterruptHandler -> InterruptHandler) : M unit :=
  fun h => (tt, f h, []).

Definition call (e : event) : M unit := fun h => (tt, h, [e]).

(** [raise e]: the method ends here and [e] goes to the caller, the
    object staying as it is.  It is written only where no statement
    follows, in the method and in its callers. *)
Definition raise (e : exn) : M unit := call (Raise e).

(** The object after the method returns, and the calls it made. *)
Definition state_after (m : M unit) (h : InterruptHandler)
    : InterruptHandler := snd (fst (m h)).

Definition trace_of (m : M unit) (h : InterruptHandler) : list event :=
  snd (m h).

End Method.
Import Method.

Declare Scope method_scope.
Delimit Scope method_scope with method.
Notation "x <- m ;; k" := (bind m (fun x => k))
  (at level 61, m at next level, right associativity) : method_scope.
Notation "m ;; k" := (bind m (fun _ => k))
  (at level 61, right associativity) : method_scope.
Open Scope method_scope.

(** Field assignments. *)
Definition set_pending_vad (b : bool) (h : InterruptHandler) :=
  {| cfg := cfg h; has_ignore_user_speech := has_ignore_user_speech h;
     _pending_vad := b; _transcript_buffer := _transcript_buffer h;
     _timer := _timer h; next_timer_id := next_timer_id h |}.

Definition set_transcript_buffer (l : list Transcript)
    (h : InterruptHandler) :=
  {| cfg := cfg h; has_ignore_user_speech := has_ignore_user_speech h;
     _pending_vad := _pending_vad h; _transcript_buffer := l;
     _timer := _timer h; next_timer_id := next_timer_id h |}.

Definition set_timer (t : option Timer) (h : InterruptHandler) :=
  {| cfg := cfg h; has_ignore_user_speech := has_ignore_user_speech h;
     _pending_vad := _pending_vad h;
     _transcript_buffer := _transcript_buffer h;
     _timer := t; next_timer_id := next_timer_id h |}.

Definition set_next_timer_id (n : nat) (h : InterruptHandler) :=
  {| cfg := cfg h; has_ignore_user_speech := has_ignore_user_speech h;
     _pending_vad := _pending_vad h;
     _transcript_buffer := _transcript_buffer h;
     _timer := _timer h; next_timer_id := n |}.

(* ===================================================================== *)
(** ** The methods of [InterruptHandler] *)
(* ===================================================================== *)

Section Handler.
Context {U : UnicodeDB}.

(** [InterruptHandler.__init__]: no window pending, nothing buffered, no
    timer. *)
Definition InterruptHandler_init (config : InterruptHandlerConfig)
    (ignore_supplied : bool) : InterruptHandler :=
  {| cfg := config;
     has_ignore_user_speech := ignore_supplied;
     _pending_vad := false;
     _transcript_buffer := [];
     _timer := None;
     next_timer_id := 0 |}.

Definition logger (m : log_msg) : M unit := call (Logger m).

(** [_normalize]. *)
Definition _normalize (s : str) : str :=
  let s2 := re_sub_punct s in
  join [SP] (split s2).

(** [_clear_pending]. *)
Definition _clear_pending : M unit :=
  modify (set_pending_vad false) ;;
  modify (set_transcript_buffer []) ;;
  tm <- gets _timer ;;
  match tm with
  | Some t =>
      call (TimerCancel (timer_id t)) ;;
      modify (set_timer None)
  | None => ret tt
  end.

(** [threading.Timer(ms / 1000.0, self._on_timer_expired)]: a new object,
    distinct from every one allocated before. *)
Definition new_Timer (ms : Z) : M Timer :=
  n <- gets next_timer_id ;;
  modify (set_next_timer_id (S n)) ;;
  ret {| timer_id := n; interval_ms := ms; daemon := false |}.

(** [_start_timer]; [int(...)] is the identity on an [int].  The argument
    [ms / 1000.0] of the [Timer] is evaluated first: when [ms] is too large
    for a float the division raises [OverflowError] and the method ends,
    the old timer cancelled and no new one made. *)
Definition _start_timer : M unit :=
  tm <- gets _timer ;;
  match tm with
  | Some t =>
      call (TimerCancel (timer_id t)) ;;
      modify (set_timer None)
  | None => ret tt
  end ;;
  c <- gets cfg ;;
  let ms := Z.max 50 (validation_window_ms c) in
  if int_overflows_float ms then raise OverflowError
  else
    t <- new_Timer ms ;;
    let t := {| timer_id := timer_id t; interval_ms := interval_ms t;
                daemon := true |} in
    modify (set_timer (Some t)) ;;
    call (TimerStart t) ;;
    logger (LogTimerStarted ms).

(** [on_vad_user_started]; the call of [_start_timer] is its last
    statement, so an exception from there ends this method too. *)
Definition on_vad_user_started : M unit :=
  logger LogVadUserStart ;;
  modify (set_pending_vad true) ;;
  modify (set_transcript_buffer []) ;;
  _start_timer.

(** The text [combined] that [on_stt_transcript] builds from the buffer. *)
Definition combined_text (buffer : list Transcript) : str :=
  strip (lower (join [SP] (map text buffer))).

(** [on_stt_transcript].  [speaking] is what [get_agent_speaking_state()]
    returns if the method gets to ask; [now] is the clock at the moment the
    method builds a [Transcript]. *)
Definition on_stt_transcript (now : Time) (speaking : bool)
    (transcript : Transcript) : M unit :=
  pending <- gets _pending_vad ;;
  if negb pending then
    logger (LogSttNoVadPending (text transcript)) ;;
    call (ProcessUserSpeechNormally transcript)
  else
    buf <- gets _transcript_buffer ;;
    modify (set_transcript_buffer (buf ++ [transcript])) ;;
    buf <- gets _transcript_buffer ;;
    let combined := combined_text buf in
    let norm := _normalize combined in
    logger (LogSttDuringPendingVad combined norm) ;;
    c <- gets cfg ;;
    match find (fun hard => str_contains hard norm) (hard_words c) with
    | Some hard =>
        _clear_pending ;;
        logger (LogHardWordDetected hard) ;;
        call StopAgentImmediately
    | None =>
        if speaking then
          let tokens := split norm in
          let only_soft :=
            forallb (fun t => list_contains t (soft_words c)
                              || (List.length t <=? 2)%nat) tokens in
          if only_soft then
            _clear_pending ;;
            logger LogOnlySoft ;;
            ign <- gets has_ignore_user_speech ;;
            if ign then call IgnoreUserSpeech else ret tt
          else
            _clear_pending ;;
            logger LogNonSoftContent ;;
            call StopAgentImmediately
        else
          _clear_pending ;;
          logger LogAgentSilent ;;
          call (ProcessUserSpeechNormally
                  (Transcript_init combined (is_final transcript) None now))
    end.

(** [agent_started_speaking] and [agent_stopped_speaking]. *)
Definition agent_started_speaking : M unit :=
  _clear_pending ;;
  logger LogAgentStartedSpeaking.

Definition agent_stopped_speaking : M unit :=
  _clear_pending ;;
  logger LogAgentStoppedSpeaking.

(** [_on_timer_expired], the function every timer runs when it fires. *)
Definition _on_timer_expired (speaking : bool) : M unit :=
  pending <- gets _pending_vad ;;
  if negb pending then ret tt
  else
    logger LogTimerExpired ;;
    if speaking then
      logger LogTimeoutAgentSpeaking ;;
      ign <- gets has_ignore_user_speech ;;
      (if ign then call IgnoreUserSpeech else ret tt) ;;
      _clear_pending
    else
      logger LogTimeoutAgentSilent ;;
      _clear_pending.

(** The events the object can receive, each running under the lock, so one
    at a time.  A timer may fire at any moment (also after its window was
    resolved: the method checks [_pending_vad] itself). *)
Inductive operation :=
| OnVadUserStarted
| OnSttTranscript (now : Time) (speaking : bool) (transcript : Transcript)
| AgentStartedSpeaking
| AgentStoppedSpeaking
| TimerExpired (speaking : bool).

Definition method_of (op : operation) : M unit :=
  match op with
  | OnVadUserStarted => on_vad_user_started
  | OnSttTranscript now speaking t => on_stt_transcript now speaking t
  | AgentStartedSpeaking => agent_started_speaking
  | AgentStoppedSpeaking => agent_stopped_speaking
  | TimerExpired speaking => _on_timer_expired speaking
  end.

Definition step (h : InterruptHandler) (op : operation) : InterruptHandler :=
  state_after (method_of op) h.

(** The object after a sequence of operations. *)
Definition run (h : InterruptHandler) (ops : list operation)
    : InterruptHandler :=
  fold_left step ops h.

(** The session is Idle: no window, nothing buffered, no timer. *)
Definition Idle (h : InterruptHandler) : Prop :=
  _pending_vad h = false /\ _transcript_buffer h = [] /\ _timer h = None.

(** The timer handle, if any, refers to an object that was allocated. *)
Definition timer_allocated (h : InterruptHandler) : Prop :=
  match _timer h with
  | Some t => (timer_id t < next_timer_id h)%nat
  | None => True
  end.

(** The buffer is non-empty only while a window is pending. *)
Definition buffer_only_while_pending (h : InterruptHandler) : Prop :=
  _transcript_buffer h <> [] -> _pending_vad h = true.

(** The text [norm] that [on_stt_transcript] classifies. *)
Definition normalized_combined (buffer : list Transcript) : str :=
  _normalize (combined_text buffer).

(** Some configured hard word occurs in [norm] as a substring. *)
Definition hard_word_matches (c : InterruptHandlerConfig) (norm : str)
    : Prop :=
  exists hard, In hard (hard_words c) /\
               exists a b, norm = a ++ hard ++ b.

(** Every whitespace token of [norm] is a soft word or at most two
    characters long. *)
Definition soft_utterance (c : InterruptHandlerConfig) (norm : str) : Prop :=
  Forall (fun t => In t (soft_words c) \/ (List.length t <= 2)%nat)
         (split norm).

(** The state [_clear_pending] leaves, and the timer call it makes. *)
Definition cleared (h : InterruptHandler) : InterruptHandler :=
  set_timer None (set_transcript_buffer [] (set_pending_vad false h)).

Definition cancel_call (tm : option Timer) : list event :=
  match tm with
  | Some t => [TimerCancel (timer_id t)]
  | None => []
  end.

(** The Normalizer as the specification words it: lowercase the text,
    replace every character other than word characters, whitespace,
    apostrophes and hyphens by a space, collapse whitespace and trim. *)
Definition spec_Normalizer (raw : str) : str :=
  join [SP] (split (re_sub_punct (lower raw))).

End Handler.

(* ===================================================================== *)
(** ** Concrete sessions (ASCII tables, default configuration) *)
(* ===================================================================== *)

Definition default_cfg : InterruptHandlerConfig :=
  InterruptHandlerConfig_init None None None.

(** A handler in the middle of a window: VAD has fired, timer 0 is
    running, nothing is buffered. *)
Definition pending_session : InterruptHandler :=
  {| cfg := default_cfg;
     has_ignore_user_speech := true;
     _pending_vad := true;
     _transcript_buffer := [];
     _timer := Some {| timer_id := 0; interval_ms := 225; daemon := true |};
     next_timer_id := 1 |}.

(** The same window with one fragment already in the buffer. *)
Definition pending_with_fragment : InterruptHandler :=
  set_transcript_buffer [mkTranscript (py "old") false 1%Z] pending_session.

(** A configuration whose window, [2^1024] ms, is too large for a float,
    and a new handler with it after one VAD start. *)
Definition huge_window_cfg : InterruptHandlerConfig :=
  InterruptHandlerConfig_init None None (Some (2 ^ 1024)%Z).

Definition huge_window_new : InterruptHandler :=
  InterruptHandler_init huge_window_cfg true.

Definition huge_window_pending : InterruptHandler :=
  step huge_window_new OnVadUserStarted.

(** A configuration whose only hard word is the empty string. *)
Definition empty_hard_cfg : InterruptHandlerConfig :=
  InterruptHandlerConfig_init None (Some [py ""]) None.

Definition pending_empty_hard : InterruptHandler :=
  {| cfg := empty_hard_cfg;
     has_ignore_user_speech := true;
     _pending_vad := true;
     _transcript_buffer := [];
     _timer := Some {| timer_id := 0; interval_ms := 225; daemon := true |};
     next_timer_id := 1 |}.

(* ===================================================================== *)
(** ** Whole runs: traces, live timers, dead configuration words *)
(* ===================================================================== *)

Section RunsAndWords.
Context {U : UnicodeDB}.

(** Everything the handler calls during a sequence of operations, in
    order; the handler it ends in is [run h ops]. *)
Fixpoint trace_from (h : InterruptHandler) (ops : list operation)
    : list event :=
  match ops with
  | [] => []
  | op :: rest => trace_of (method_of op) h ++ trace_from (step h op) rest
  end.

(** The identities of the timers that were started and not cancelled
    since, given those [live] before the trace. *)
Definition timer_update (live : list nat) (e : event) : list nat :=
  match e with
  | TimerStart t => timer_id t :: live
  | TimerCancel id => filter (fun x => negb (Nat.eqb x id)) live
  | _ => live
  end.

Definition uncancelled_timers (live : list nat) (tr : list event)
    : list nat :=
  fold_left timer_update tr live.

(** The timer the handler holds in [self._timer]. *)
Definition held_timer (h : InterruptHandler) : list nat :=
  match _timer h with
  | Some t => [timer_id t]
  | None => []
  end.

(** Calls that decide against or for the agent's speech going on. *)
Definition is_stop_or_ignore (e : event) : bool :=
  match e with
  | StopAgentImmediately | IgnoreUserSpeech => true
  | _ => false
  end.

Definition is_vad_start (op : operation) : bool :=
  match op with
  | OnVadUserStarted => true
  | _ => false
  end.

(** A word that can be a token of normalized text: non-empty, with no
    whitespace and no character that [_normalize] replaces. *)
Definition clean_word (w : str) : bool :=
  match w with
  | [] => false
  | _ => forallb (fun c => negb (isspace c) && negb (punct c)) w
  end.

(** A phrase that can occur in normalized text: no character that
    [_normalize] replaces, and no whitespace other than U+0020. *)
Definition clean_phrase (w : str) : bool :=
  forallb (fun c => negb (punct c) && (negb (isspace c) || N.eqb c SP)) w.

(** The handler with other word lists in its configuration. *)
Definition with_words (soft hard : list str) (h : InterruptHandler)
    : InterruptHandler :=
  {| cfg := {| soft_words := soft; hard_words := hard;
               validation_window_ms := validation_window_ms (cfg h) |};
     has_ignore_user_speech := has_ignore_user_speech h;
     _pending_vad := _pending_vad h;
     _transcript_buffer := _transcript_buffer h;
     _timer := _timer h;
     next_timer_id := next_timer_id h |}.

End RunsAndWords.

(* ===================================================================== *)
(** ** Facts about the string operations *)
(* ===================================================================== *)

Lemma str_eqb_eq (a b : str) : str_eqb a b = true <-> a = b.
Proof.
  revert b; induction a as [|x a IH]; intros [|y b]; simpl;
    try (split; [discriminate | discriminate]); [tauto|].
  rewrite andb_true_iff, N.eqb_eq, IH.
  split; [intros [-> ->]; reflexivity | intros E; injection E; auto].
Qed.

Lemma list_contains_In (x : str) (l : list str) :
  list_contains x l = true <-> In x l.
Proof.
  unfold list_contains. rewrite existsb_exists. split.
  - intros (y & Hy & E). apply str_eqb_eq in E. now subst.
  - intros H. exists x. split; [assumption | now apply str_eqb_eq].
Qed.

Lemma startswith_app (p s : str) :
  startswith p s = true <-> exists r, s = p ++ r.
Proof.
  revert s; induction p as [|x p IH]; intros s; simpl.
  - split; [intros _; now exists s | reflexivity].
  - destruct s as [|y s].
    + split; [discriminate | intros (r & E); discriminate].
    + rewrite andb_true_iff, N.eqb_eq, IH. split.
      * intros (-> & r & ->). now exists r.
      * intros (r & E). injection E as -> ->. split; [reflexivity | now exists r].
Qed.

(** [sub in s] holds exactly when [s] is [a ++ sub ++ b] for some [a], [b]. *)
Lemma str_contains_spec (sub s : str) :
  str_contains sub s = true <-> exists a b, s = a ++ sub ++ b.
Proof.
  induction s as [|c s IH]; simpl; rewrite orb_true_iff, startswith_app.
  - split.
    + intros [(r & E) | F]; [| discriminate]. now exists [], r.
    + intros (a & b & E). left. destruct a; [| discriminate].
      now exists b.
  - rewrite IH. split.
    + intros [(r & E) | (a & b & E)].
      * now exists [], r.
      * exists (c :: a), b. now rewrite E.
    + intros ([|c' a] & b & E).
      * left. now exists b.
      * right. injection E as _ E. now exists a, b.
Qed.

Lemma In_join (sep : str) (l : list str) (c : char) :
  In c (join sep l) -> In c sep \/ exists t, In t l /\ In c t.
Proof.
  induction l as [|x l IH]; [intros []|].
  destruct l as [|y l].
  - simpl. intros H. right. exists x. auto.
  - change (join sep (x :: y :: l)) with (x ++ sep ++ join sep (y :: l)).
    rewrite !in_app_iff. intros [H | [H | H]].
    + right. exists x. simpl; auto.
    + now left.
    + destruct (IH H) as [H' | (t & Ht & Hc)]; [now left|].
      right. exists t. split; [right; assumption | assumption].
Qed.

Section StringFacts.
Context {U : UnicodeDB}.

Lemma split_cons (c : char) (r : str) :
  split (c :: r) =
  if isspace c then split r
  else match r with
       | [] => [[c]]
       | d :: _ =>
           if isspace d then [c] :: split r
           else match split r with
                | t :: ts => (c :: t) :: ts
                | [] => [[c]]
                end
       end.
Proof. destruct r; reflexivity. Qed.

Lemma split_tokens (s : str) : Forall is_token (split s).
Proof.
  induction s as [|c r IH]; [constructor|].
  rewrite split_cons.
  destruct (isspace c) eqn:Hc; [assumption|].
  assert (Hone : is_token [c]).
  { split; [discriminate | repeat constructor; assumption]. }
  destruct r as [|d r']; [constructor; [exact Hone | constructor]|].
  destruct (isspace d) eqn:Hd; [constructor; assumption|].
  destruct (split (d :: r')) as [|t ts];
    [constructor; [exact Hone | constructor]|].
  inversion IH as [|? ? [_ Ht] Hts]; subst.
  constructor; [| assumption].
  split; [discriminate | constructor; assumption].
Qed.

(** The tokens, concatenated, are the non-whitespace characters in order. *)
Lemma concat_split (s : str) :
  List.concat (split s) = filter (fun c => negb (isspace c)) s.
Proof.
  induction s as [|c r IH]; [reflexivity|].
  rewrite split_cons. simpl filter.
  destruct (isspace c) eqn:Hc; simpl negb; cbv iota; [assumption|].
  destruct r as [|d r']; [reflexivity|].
  rewrite <- IH.
  destruct (isspace d) eqn:Hd; [reflexivity|].
  destruct (split (d :: r')); reflexivity.
Qed.

Lemma split_token_app (t rest : str) :
  is_token t ->
  (rest = [] \/ exists r, rest = SP :: r) ->
  split (t ++ rest) = t :: split rest.
Proof.
  intros [Hne Hall] Hrest.
  induction t as [|c t IH]; [congruence|].
  inversion Hall as [|? ? Hc Ht]; subst.
  rewrite <- app_comm_cons, split_cons, Hc.
  destruct t as [|c' t].
  - simpl app. destruct Hrest as [-> | (r & ->)]; [reflexivity|].
    now rewrite isspace_SP.
  - inversion Ht as [|? ? Hc' _]; subst.
    rewrite <- app_comm_cons, Hc'.
    rewrite app_comm_cons, IH; [reflexivity | discriminate | assumption].
Qed.

(** Splitting undoes joining with single spaces. *)
Lemma split_join (toks : list str) :
  Forall is_token toks -> split (join [SP] toks) = toks.
Proof.
  induction toks as [|x l IH]; [reflexivity|].
  intros H. inversion H as [|? ? Hx Hl]; subst.
  destruct l as [|y l].
  - simpl join. rewrite <- (app_nil_r x) at 1.
    rewrite split_token_app; auto.
  - change (join [SP] (x :: y :: l))
      with (x ++ SP :: join [SP] (y :: l)).
    rewrite split_token_app; [| assumption | right; eauto].
    rewrite split_cons, isspace_SP, IH; auto.
Qed.

Lemma join_starts_clean (toks : list str) :
  Forall is_token toks -> starts_clean (join [SP] toks).
Proof.
  intros H. destruct toks as [|x l]; [exact I|].
  inversion H as [|? ? [Hne Hx] _]; subst.
  destruct x as [|c x]; [congruence|].
  inversion Hx; subst.
  destruct l; simpl; assumption.
Qed.

Lemma join_ends_clean (toks : list str) :
  Forall is_token toks -> toks <> [] ->
  exists p c, join [SP] toks = p ++ [c] /\ isspace c = false.
Proof.
  induction toks as [|x l IH]; [congruence|].
  intros H _. inversion H as [|? ? [Hne Hx] Hl]; subst.
  destruct l as [|y l].
  - destruct (exists_last Hne) as (p & c & ->).
    exists p, c. split; [reflexivity|].
    rewrite Forall_app in Hx. destruct Hx as [_ Hc].
    now inversion Hc.
  - destruct IH as (p & c & E & Hc); [assumption | discriminate |].
    exists (x ++ SP :: p), c. split; [| assumption].
    change (join [SP] (x :: y :: l))
      with (x ++ SP :: join [SP] (y :: l)).
    rewrite E, <- app_assoc. reflexivity.
Qed.

Lemma lstrip_clean (s : str) : starts_clean s -> lstrip s = s.
Proof. destruct s as [|c s]; simpl; [reflexivity | now intros ->]. Qed.

Lemma strip_join (toks : list str) :
  Forall is_token toks -> strip (join [SP] toks) = join [SP] toks.
Proof.
  intros H. unfold strip, rstrip.
  rewrite (lstrip_clean _ (join_starts_clean H)).
  destruct toks as [|x l]; [reflexivity|].
  destruct (join_ends_clean H) as (p & c & -> & Hc); [discriminate|].
  rewrite rev_app_distr.
  change (rev [c] ++ rev p) with (c :: rev p).
  rewrite (lstrip_clean (c :: rev p) Hc).
  change (c :: rev p) with ([c] ++ rev p).
  rewrite rev_app_distr, rev_involutive. reflexivity.
Qed.

Lemma no_adjacent_space_app (t rest : str) :
  Forall (fun c => isspace c = false) t ->
  no_adjacent_space rest = true ->
  no_adjacent_space (t ++ rest) = true.
Proof.
  intros Ht Hr. induction t as [|c t IH]; [assumption|].
  inversion Ht as [|? ? Hc Ht']; subst.
  rewrite <- app_comm_cons.
  specialize (IH Ht').
  destruct (t ++ rest) as [|d r]; [reflexivity|].
  change (no_adjacent_space (c :: d :: r))
    with (negb (isspace c && isspace d) && no_adjacent_space (d :: r)).
  rewrite Hc, IH. reflexivity.
Qed.

Lemma no_adjacent_space_join (toks : list str) :
  Forall is_token toks -> no_adjacent_space (join [SP] toks) = true.
Proof.
  induction toks as [|x l IH]; [reflexivity|].
  intros H. inversion H as [|? ? [Hne Hx] Hl]; subst.
  destruct l as [|y l].
  - simpl join. rewrite <- (app_nil_r x). now apply no_adjacent_space_app.
  - change (join [SP] (x :: y :: l))
      with (x ++ SP :: join [SP] (y :: l)).
    apply no_adjacent_space_app; [assumption|].
    pose proof (join_starts_clean Hl) as Hs.
    specialize (IH Hl).
    destruct (join [SP] (y :: l)) as [|d r]; [reflexivity|].
    simpl in Hs.
    change (no_adjacent_space (SP :: d :: r))
      with (negb (isspace SP && isspace d) && no_adjacent_space (d :: r)).
    rewrite Hs, andb_false_r, IH. reflexivity.
Qed.

Lemma space_in_join (toks : list str) (c : char) :
  Forall is_token toks ->
  In c (join [SP] toks) -> isspace c = true -> c = SP.
Proof.
  intros H Hin Hc.
  destruct (In_join _ _ _ Hin) as [[E | []] | (t & Ht & Hct)]; [now subst|].
  rewrite Forall_forall in H. destruct (H t Ht) as [_ Hall].
  rewrite Forall_forall in Hall. rewrite (Hall c Hct) in Hc. discriminate.
Qed.

Lemma filter_join (toks : list str) :
  Forall is_token toks ->
  filter (fun c => negb (isspace c)) (join [SP] toks) = List.concat toks.
Proof.
  intros H. rewrite <- concat_split, split_join; auto.
Qed.

Lemma filter_re_sub_punct (s : str) :
  filter (fun c => negb (isspace c)) (re_sub_punct s) =
  filter (fun c => negb (punct c) && negb (isspace c)) s.
Proof.
  induction s as [|c s IH]; [reflexivity|].
  unfold re_sub_punct in *. simpl. rewrite IH.
  destruct (punct c); simpl; [now rewrite isspace_SP | reflexivity].
Qed.

End StringFacts.

(* ===================================================================== *)
(** ** Running the methods *)
(* ===================================================================== *)

Arguments int_overflows_float : simpl never.

Ltac run_method :=
  cbv [bind gets modify logger call raise ret];
  cbn [_pending_vad _transcript_buffer _timer cfg has_ignore_user_speech
       next_timer_id set_pending_vad set_transcript_buffer set_timer
       set_next_timer_id negb app fst snd].

Section Runs.
Context {U : UnicodeDB}.

Lemma _clear_pending_run (h : InterruptHandler) :
  _clear_pending h = (tt, cleared h, cancel_call (_timer h)).
Proof.
  unfold _clear_pending, cleared, cancel_call. run_method.
  unfold set_timer, set_transcript_buffer, set_pending_vad.
  cbn [_pending_vad _transcript_buffer _timer cfg has_ignore_user_speech
       next_timer_id].
  destruct (_timer h); reflexivity.
Qed.

Lemma cleared_Idle (h : InterruptHandler) : Idle (cleared h).
Proof. repeat split. Qed.

(** What [on_vad_user_started] does, in full, when the window fits a
    float. *)
Lemma on_vad_user_started_run (h : InterruptHandler) :
  int_overflows_float (Z.max 50 (validation_window_ms (cfg h))) = false ->
  let ms := Z.max 50 (validation_window_ms (cfg h)) in
  let t := {| timer_id := next_timer_id h; interval_ms := ms;
              daemon := true |} in
  on_vad_user_started h =
  (tt,
   {| cfg := cfg h; has_ignore_user_speech := has_ignore_user_speech h;
      _pending_vad := true; _transcript_buffer := [];
      _timer := Some t; next_timer_id := S (next_timer_id h) |},
   Logger LogVadUserStart :: cancel_call (_timer h)
     ++ [TimerStart t; Logger (LogTimerStarted ms)]).
Proof.
  intros Ho.
  unfold on_vad_user_started, _start_timer, new_Timer, cancel_call.
  run_method. destruct (_timer h); run_method; rewrite Ho; reflexivity.
Qed.

(** And when it does not: the window is opened and the old timer
    cancelled, then [OverflowError] is raised and no timer is started. *)
Lemma on_vad_user_started_raises (h : InterruptHandler) :
  int_overflows_float (Z.max 50 (validation_window_ms (cfg h))) = true ->
  on_vad_user_started h =
  (tt,
   {| cfg := cfg h; has_ignore_user_speech := has_ignore_user_speech h;
      _pending_vad := true; _transcript_buffer := [];
      _timer := None; next_timer_id := next_timer_id h |},
   Logger LogVadUserStart :: cancel_call (_timer h)
     ++ [Raise OverflowError]).
Proof.
  intros Ho.
  unfold on_vad_user_started, _start_timer, new_Timer, cancel_call.
  run_method. destruct (_timer h) eqn:Et; run_method; rewrite Ho;
    [reflexivity|].
  unfold raise, call, set_transcript_buffer, set_pending_vad.
  cbn [_pending_vad _transcript_buffer _timer cfg has_ignore_user_speech
       next_timer_id app]. now rewrite Et.
Qed.

Lemma on_stt_transcript_idle (now : Time) (speaking : bool)
    (t : Transcript) (h : InterruptHandler) :
  _pending_vad h = false ->
  on_stt_transcript now speaking t h =
  (tt, h, [Logger (LogSttNoVadPending (text t));
           ProcessUserSpeechNormally t]).
Proof.
  intros Hp. unfold on_stt_transcript. run_method. rewrite Hp. reflexivity.
Qed.

(** With a window pending, the method resolves it on one of four paths. *)
Lemma on_stt_transcript_pending (now : Time) (speaking : bool)
    (t : Transcript) (h : InterruptHandler) :
  _pending_vad h = true ->
  let buf := _transcript_buffer h ++ [t] in
  let combined := combined_text buf in
  let norm := normalized_combined buf in
  on_stt_transcript now speaking t h =
  (tt, cleared h,
   Logger (LogSttDuringPendingVad combined norm) :: cancel_call (_timer h) ++
   match find (fun hard => str_contains hard norm) (hard_words (cfg h)) with
   | Some hard => [Logger (LogHardWordDetected hard); StopAgentImmediately]
   | None =>
       if speaking then
         if forallb (fun tok => list_contains tok (soft_words (cfg h))
                                || (List.length tok <=? 2)%nat) (split norm)
         then Logger LogOnlySoft ::
              (if has_ignore_user_speech h then [IgnoreUserSpeech] else [])
         else [Logger LogNonSoftContent; StopAgentImmediately]
       else [Logger LogAgentSilent;
             ProcessUserSpeechNormally
               {| text := combined; is_final := is_final t;
                  timestamp := now |}]
   end).
Proof.
  intros Hp. cbv zeta. unfold on_stt_transcript, normalized_combined.
  run_method. rewrite Hp. cbn [negb].
  set (buf := _transcript_buffer h ++ [t]).
  set (norm := _normalize (combined_text buf)).
  destruct (find _ (hard_words (cfg h))) as [hard|].
  - rewrite _clear_pending_run. reflexivity.
  - destruct speaking.
    + destruct (forallb _ (split norm)).
      * rewrite _clear_pending_run. cbn.
        destruct (has_ignore_user_speech h); reflexivity.
      * rewrite _clear_pending_run. reflexivity.
    + rewrite _clear_pending_run. reflexivity.
Qed.

Lemma agent_started_speaking_run (h : InterruptHandler) :
  agent_started_speaking h =
  (tt, cleared h, cancel_call (_timer h) ++ [Logger LogAgentStartedSpeaking]).
Proof.
  unfold agent_started_speaking. run_method.
  rewrite _clear_pending_run. reflexivity.
Qed.

Lemma agent_stopped_speaking_run (h : InterruptHandler) :
  agent_stopped_speaking h =
  (tt, cleared h, cancel_call (_timer h) ++ [Logger LogAgentStoppedSpeaking]).
Proof.
  unfold agent_stopped_speaking. run_method.
  rewrite _clear_pending_run. reflexivity.
Qed.

Lemma _on_timer_expired_idle (speaking : bool) (h : InterruptHandler) :
  _pending_vad h = false -> _on_timer_expired speaking h = (tt, h, []).
Proof.
  intros Hp. unfold _on_timer_expired. run_method. rewrite Hp. reflexivity.
Qed.

Lemma _on_timer_expired_pending (speaking : bool) (h : InterruptHandler) :
  _pending_vad h = true ->
  _on_timer_expired speaking h =
  (tt, cleared h,
   Logger LogTimerExpired ::
   (if speaking
    then Logger LogTimeoutAgentSpeaking ::
         (if has_ignore_user_speech h then [IgnoreUserSpeech] else [])
    else [Logger LogTimeoutAgentSilent])
   ++ cancel_call (_timer h)).
Proof.
  intros Hp. unfold _on_timer_expired. run_method. rewrite Hp. cbn [negb].
  destruct speaking.
  - destruct (has_ignore_user_speech h);
      rewrite _clear_pending_run; reflexivity.
  - rewrite _clear_pending_run. reflexivity.
Qed.

End Runs.

(* ===================================================================== *)
(** ** Classification: the boolean tests and what they decide *)
(* ===================================================================== *)

Section Classification.
Context {U : UnicodeDB}.

Lemma hard_word_matches_existsb (c : InterruptHandlerConfig) (norm : str) :
  hard_word_matches c norm <->
  existsb (fun hard => str_contains hard norm) (hard_words c) = true.
Proof.
  unfold hard_word_matches. rewrite existsb_exists.
  split; intros (hard & Hin & H); exists hard; split; auto;
    now apply str_contains_spec.
Qed.

Lemma find_hard_word (c : InterruptHandlerConfig) (norm : str) :
  hard_word_matches c norm ->
  exists hard,
    find (fun hard => str_contains hard norm) (hard_words c) = Some hard.
Proof.
  intros (hard & Hin & H). apply str_contains_spec in H.
  destruct (find _ (hard_words c)) as [x|] eqn:E; [now exists x|].
  rewrite (find_none _ _ E hard Hin) in H. discriminate.
Qed.

Lemma find_no_hard_word (c : InterruptHandlerConfig) (norm : str) :
  ~ hard_word_matches c norm ->
  find (fun hard => str_contains hard norm) (hard_words c) = None.
Proof.
  intros Hn. destruct (find _ (hard_words c)) as [x|] eqn:E; [|reflexivity].
  destruct (find_some _ _ E) as [Hin H]. exfalso. apply Hn.
  exists x. split; [assumption | now apply str_contains_spec].
Qed.

Lemma soft_utterance_forallb (c : InterruptHandlerConfig) (norm : str) :
  soft_utterance c norm <->
  forallb (fun tok => list_contains tok (soft_words c)
                      || (List.length tok <=? 2)%nat) (split norm) = true.
Proof.
  unfold soft_utterance. rewrite forallb_forall, Forall_forall.
  split; intros H tok Hin; specialize (H tok Hin).
  - apply orb_true_iff. destruct H as [H | H].
    + left. now apply list_contains_In.
    + right. now apply Nat.leb_le.
  - apply orb_true_iff in H. destruct H as [H | H].
    + left. now apply list_contains_In.
    + right. now apply Nat.leb_le.
Qed.

(** Only the empty string occurs in the empty string. *)
Lemma str_contains_nil (sub : str) : str_contains sub [] = true -> sub = [].
Proof.
  intros H. apply str_contains_spec in H. destruct H as (a & b & E).
  symmetry in E. apply app_eq_nil in E. destruct E as [_ E].
  apply app_eq_nil in E. tauto.
Qed.

End Classification.

(* ===================================================================== *)
(** ** Resolution of a pending window by a transcript *)
(* ===================================================================== *)

Section Resolution.
Context {U : UnicodeDB}.

Lemma resolutions_cancel_call (tm : option Timer) (tr : list event) :
  resolutions (cancel_call tm ++ tr) = resolutions tr.
Proof. destruct tm; reflexivity. Qed.

Lemma timer_calls_cancel_call (tm : option Timer) (tr : list event) :
  timer_calls (cancel_call tm ++ tr) = cancel_call tm ++ timer_calls tr.
Proof. destruct tm; reflexivity. Qed.

(** C1.  While a window is pending, a transcript that makes some configured
    hard word a substring of the normalized combined text has
    [stop_agent_immediately] called exactly once and no other resolution
    callback, and leaves the session Idle (not pending, buffer empty, the
    timer cancelled and dropped), whatever the agent speaking state. *)
Theorem hard_word_stops_immediately (h : InterruptHandler) (now : Time)
    (speaking : bool) (t : Transcript) :
  _pending_vad h = true ->
  hard_word_matches (cfg h)
    (normalized_combined (_transcript_buffer h ++ [t])) ->
  resolutions (trace_of (on_stt_transcript now speaking t) h)
    = [StopAgentImmediately]
  /\ Idle (state_after (on_stt_transcript now speaking t) h)
  /\ timer_calls (trace_of (on_stt_transcript now speaking t) h)
     = cancel_call (_timer h).
Proof.
  intros Hp Hm. destruct (find_hard_word Hm) as [hard Hf].
  pose proof (on_stt_transcript_pending now speaking t h Hp) as E.
  cbv zeta in E. rewrite Hf in E.
  unfold trace_of, state_after. rewrite E. cbn [fst snd].
  split; [| split].
  - change (resolutions (cancel_call (_timer h) ++
              [Logger (LogHardWordDetected hard); StopAgentImmediately])
            = [StopAgentImmediately]).
    now rewrite resolutions_cancel_call.
  - apply cleared_Idle.
  - change (timer_calls (cancel_call (_timer h) ++
              [Logger (LogHardWordDetected hard); StopAgentImmediately])
            = cancel_call (_timer h)).
    rewrite timer_calls_cancel_call. apply app_nil_r.
Qed.

(** C2.  While a window is pending, the agent is speaking and no hard word
    matches: if every whitespace token of the normalized combined text is a
    soft word or at most two characters long, the only resolution callback
    is [ignore_user_speech], called when it was supplied; otherwise the only
    one is [stop_agent_immediately].  So ignore fires exactly when it is
    supplied and the utterance is soft, stop fires exactly when the
    utterance is not soft, and either way the session ends Idle. *)
Theorem soft_speech_ignored_else_stop (h : InterruptHandler) (now : Time)
    (t : Transcript) :
  _pending_vad h = true ->
  ~ hard_word_matches (cfg h)
      (normalized_combined (_transcript_buffer h ++ [t])) ->
  let norm := normalized_combined (_transcript_buffer h ++ [t]) in
  let tr := trace_of (on_stt_transcript now true t) h in
  (soft_utterance (cfg h) norm ->
     resolutions tr =
     if has_ignore_user_speech h then [IgnoreUserSpeech] else [])
  /\ (~ soft_utterance (cfg h) norm ->
        resolutions tr = [StopAgentImmediately])
  /\ (In IgnoreUserSpeech tr <->
        has_ignore_user_speech h = true /\ soft_utterance (cfg h) norm)
  /\ (In StopAgentImmediately tr <-> ~ soft_utterance (cfg h) norm)
  /\ Idle (state_after (on_stt_transcript now true t) h)
  /\ timer_calls tr = cancel_call (_timer h).
Proof.
  intros Hp Hn norm tr.
  pose proof (on_stt_transcript_pending now true t h Hp) as E.
  cbv zeta in E. rewrite (find_no_hard_word Hn) in E.
  fold norm in E.
  pose proof (soft_utterance_forallb (cfg h) norm) as Hs.
  assert (Hin : forall e, is_resolution e = true ->
                          (In e tr <-> In e (resolutions tr))).
  { intros e He. unfold resolutions. rewrite filter_In. tauto. }
  pose proof (Hin IgnoreUserSpeech eq_refl) as Hi.
  pose proof (Hin StopAgentImmediately eq_refl) as Ht.
  clear Hin. subst tr. unfold trace_of, state_after in *.
  rewrite E in *. cbn [fst snd] in *. clear E.
  rewrite Hi, Ht. clear Hi Ht.
  change (resolutions (Logger ?m :: ?l)) with (resolutions l).
  change (timer_calls (Logger ?m :: ?l)) with (timer_calls l).
  rewrite resolutions_cancel_call, timer_calls_cancel_call.
  destruct (forallb _ (split norm)).
  - assert (S : soft_utterance (cfg h) norm) by now apply Hs.
    destruct (has_ignore_user_speech h); cbn;
      rewrite ?app_nil_r; intuition (try discriminate; auto using cleared_Idle).
  - assert (S : ~ soft_utterance (cfg h) norm).
    { intros S. apply Hs in S. discriminate. }
    cbn; rewrite ?app_nil_r;
      intuition (try discriminate; auto using cleared_Idle).
Qed.

(** C3, as the code has it.  While a window is pending, the agent is not
    speaking and no hard word matches, [process_user_speech_normally] is the
    one resolution callback, and it receives a new [Transcript] whose text
    is [combined]: the texts of all buffered fragments and of the triggering
    one, in arrival order, joined by single spaces, lowercased and stripped
    of surrounding whitespace (punctuation is kept: this is the text before
    [_normalize]).  Its finality flag is the triggering fragment's, and the
    session ends Idle. *)
Theorem silent_agent_processes_combined (h : InterruptHandler) (now : Time)
    (t : Transcript) :
  _pending_vad h = true ->
  ~ hard_word_matches (cfg h)
      (normalized_combined (_transcript_buffer h ++ [t])) ->
  resolutions (trace_of (on_stt_transcript now false t) h) =
    [ProcessUserSpeechNormally
       {| text := strip (lower (join [SP]
                    (map text (_transcript_buffer h) ++ [text t])));
          is_final := is_final t;
          timestamp := now |}]
  /\ Idle (state_after (on_stt_transcript now false t) h)
  /\ timer_calls (trace_of (on_stt_transcript now false t) h)
     = cancel_call (_timer h).
Proof.
  intros Hp Hn.
  pose proof (on_stt_transcript_pending now false t h Hp) as E.
  cbv zeta in E. rewrite (find_no_hard_word Hn) in E.
  unfold trace_of, state_after. rewrite E. cbn [fst snd].
  unfold combined_text. rewrite map_app. cbn [map].
  split; [| split].
  - destruct (_timer h); reflexivity.
  - apply cleared_Idle.
  - destruct (_timer h); reflexivity.
Qed.

End Resolution.

(** *** Concrete runs of the three paths *)

Lemma no_hard_word_by_test (c : InterruptHandlerConfig) (norm : str) :
  existsb (fun hard => str_contains hard norm) (hard_words c) = false ->
  ~ hard_word_matches c norm.
Proof.
  intros E H. apply hard_word_matches_existsb in H. congruence.
Defined.

Lemma soft_utterance_by_test (c : InterruptHandlerConfig) (norm : str) :
  forallb (fun tok => list_contains tok (soft_words c)
                      || (List.length tok <=? 2)%nat) (split norm) = true ->
  soft_utterance c norm.
Proof. apply soft_utterance_forallb. Defined.

(** Scenario 3 of the simulation: the agent speaks, "no stop" arrives. *)
Lemma hard_word_stops_immediately_witness :
  let t := mkTranscript (py "no stop") true 3%Z in
  _pending_vad pending_session = true
  /\ resolutions (trace_of (on_stt_transcript 4%Z true t) pending_session)
     = [StopAgentImmediately]
  /\ Idle (state_after (on_stt_transcript 4%Z true t) pending_session)
  /\ timer_calls (trace_of (on_stt_transcript 4%Z true t) pending_session)
     = [TimerCancel 0].
Proof.
  intros t. split; [reflexivity|].
  apply (@hard_word_stops_immediately AsciiDB pending_session 4%Z true t).
  - reflexivity.
  - exists (py "no"). split.
    + right; right; left; reflexivity.
    + exists [], (py " stop"). reflexivity.
Defined.

(** The agent speaks, "Yeah, ok!" arrives: both tokens are soft words. *)
Lemma soft_speech_ignored_else_stop_witness :
  let t := mkTranscript (py "Yeah, ok!") false 3%Z in
  normalized_combined [t] = py "yeah ok"
  /\ resolutions (trace_of (on_stt_transcript 4%Z true t) pending_session)
     = [IgnoreUserSpeech].
Proof.
  intros t. split; [reflexivity|].
  refine (proj1 (@soft_speech_ignored_else_stop AsciiDB pending_session
                   4%Z t _ _) _).
  - reflexivity.
  - apply no_hard_word_by_test. reflexivity.
  - apply soft_utterance_by_test. reflexivity.
Defined.

(** Scenario 2 of the simulation: the agent is silent, "yeah" arrives. *)
Lemma silent_agent_processes_combined_witness :
  let t := mkTranscript (py "yeah") true 3%Z in
  resolutions (trace_of (on_stt_transcript 4%Z false t) pending_session)
  = [ProcessUserSpeechNormally (mkTranscript (py "yeah") true 4%Z)].
Proof.
  intros t.
  refine (proj1 (@silent_agent_processes_combined AsciiDB pending_session
                   4%Z t _ _)).
  - reflexivity.
  - apply no_hard_word_by_test. reflexivity.
Defined.

(** C3 as worded fails: with the agent silent and "Hello, World!" arriving
    in a pending window, no hard word matches and the normalized combined
    text is "hello world", but the callback receives "hello, world!", the
    text before normalization. *)
Lemma normalized_text_is_not_what_is_processed :
  let t := mkTranscript (py "Hello, World!") true 3%Z in
  let tr := trace_of (on_stt_transcript 4%Z false t) pending_session in
  _pending_vad pending_session = true
  /\ ~ hard_word_matches (cfg pending_session)
         (normalized_combined (_transcript_buffer pending_session ++ [t]))
  /\ normalized_combined (_transcript_buffer pending_session ++ [t])
     = py "hello world"
  /\ resolutions tr
     = [ProcessUserSpeechNormally
          (mkTranscript (py "hello, world!") true 4%Z)]
  /\ ~ (exists ts,
          resolutions tr =
          [ProcessUserSpeechNormally
             (mkTranscript
                (normalized_combined
                   (_transcript_buffer pending_session ++ [t])) true ts)]).
Proof.
  intros t tr. split; [reflexivity|]. split; [| split; [| split]].
  - apply no_hard_word_by_test. reflexivity.
  - reflexivity.
  - reflexivity.
  - intros (ts & E). vm_compute in E. discriminate E.
Qed.

(* ===================================================================== *)
(** ** The normalizer *)
(* ===================================================================== *)

Section Normalizer.
Context {U : UnicodeDB}.

Lemma split_cons_space (c : char) (r : str) :
  isspace c = true -> split (c :: r) = split r.
Proof. intros H. now rewrite split_cons, H. Qed.

Lemma split_space_app (w s : str) :
  Forall (fun c => isspace c = true) w -> split (w ++ s) = split s.
Proof.
  induction 1 as [|c w Hc _ IH]; [reflexivity|].
  rewrite <- app_comm_cons, split_cons_space; assumption.
Qed.

Lemma split_only_space (w : str) :
  Forall (fun c => isspace c = true) w -> split w = [].
Proof.
  intros Hw. pose proof (split_space_app [] Hw) as E.
  now rewrite app_nil_r in E.
Qed.

Lemma split_app_space (s w : str) :
  Forall (fun c => isspace c = true) w -> split (s ++ w) = split s.
Proof.
  intros Hw. induction s as [|c r IH]; [now apply split_only_space|].
  rewrite <- app_comm_cons, !split_cons, IH.
  destruct (isspace c); [reflexivity|].
  destruct r as [|d r']; [| reflexivity].
  simpl app. destruct Hw as [|d w Hd Hw]; [reflexivity|].
  now rewrite Hd.
Qed.

Lemma lstrip_decomp (s : str) :
  exists w, s = w ++ lstrip s /\ Forall (fun c => isspace c = true) w.
Proof.
  induction s as [|c r (w & E & Hw)]; [now exists []|].
  simpl. destruct (isspace c) eqn:Hc.
  - exists (c :: w). split; [simpl; congruence | now constructor].
  - now exists [].
Qed.

Lemma rstrip_decomp (s : str) :
  exists w, s = rstrip s ++ w /\ Forall (fun c => isspace c = true) w.
Proof.
  destruct (lstrip_decomp (rev s)) as (w & E & Hw).
  exists (rev w). split.
  - unfold rstrip. rewrite <- rev_app_distr, <- E. symmetry.
    apply rev_involutive.
  - now apply Forall_rev.
Qed.

Lemma re_sub_punct_space (w : str) :
  Forall (fun c => isspace c = true) w -> re_sub_punct w = w.
Proof.
  induction 1 as [|c w Hc _ IH]; [reflexivity|].
  unfold re_sub_punct in *. simpl. rewrite IH. unfold punct.
  rewrite Hc, orb_true_r. reflexivity.
Qed.

(** Stripping before [_normalize] does not change its tokens. *)
Lemma split_re_sub_punct_strip (s : str) :
  split (re_sub_punct (strip s)) = split (re_sub_punct s).
Proof.
  destruct (lstrip_decomp s) as (w1 & E1 & H1).
  destruct (rstrip_decomp (lstrip s)) as (w2 & E2 & H2).
  change (rstrip (lstrip s)) with (strip s) in E2.
  assert (E : re_sub_punct s
              = w1 ++ re_sub_punct (strip s) ++ w2).
  { rewrite E1 at 1. rewrite E2. unfold re_sub_punct. rewrite !map_app.
    fold (re_sub_punct w1) (re_sub_punct w2).
    now rewrite (re_sub_punct_space H1), (re_sub_punct_space H2). }
  rewrite E, split_space_app, split_app_space by assumption. reflexivity.
Qed.

(** C4, as the code has it.  [_normalize] is a function of its argument
    alone.  It keeps the case of its input: its tokens are those of the
    input after each character other than word characters, whitespace,
    apostrophes and hyphens is replaced by a space, and its non-whitespace
    characters are exactly the kept characters of the input, in order.  The
    result is trimmed and whitespace-collapsed: stripping changes nothing,
    no two whitespace characters are adjacent, and the only whitespace left
    is U+0020.  The lowercasing is the caller's: [on_stt_transcript]
    lowercases and strips the joined text before calling [_normalize], and
    that pipeline is the Normalizer of the specification. *)
Theorem _normalize_collapses_trims_keeps_case (s : str)
    (buffer : list Transcript) :
  split (_normalize s) = split (re_sub_punct s)
  /\ filter (fun c => negb (isspace c)) (_normalize s)
     = filter (fun c => negb (punct c) && negb (isspace c)) s
  /\ strip (_normalize s) = _normalize s
  /\ no_adjacent_space (_normalize s) = true
  /\ forallb (fun c => negb (isspace c) || N.eqb c SP) (_normalize s) = true
  /\ spec_Normalizer s = _normalize (lower s)
  /\ normalized_combined buffer
     = spec_Normalizer (join [SP] (map text buffer)).
Proof.
  pose proof (split_tokens (re_sub_punct s)) as Htok.
  unfold _normalize at 1 2 3 4 5 6. cbv zeta.
  repeat apply conj.
  - now apply split_join.
  - rewrite filter_join by assumption.
    now rewrite concat_split, filter_re_sub_punct.
  - now apply strip_join.
  - now apply no_adjacent_space_join.
  - apply forallb_forall. intros c Hin.
    destruct (isspace c) eqn:Hc; [| reflexivity].
    rewrite (@space_in_join _ _ c Htok Hin Hc). reflexivity.
  - reflexivity.
  - unfold normalized_combined, combined_text, spec_Normalizer, _normalize.
    now rewrite split_re_sub_punct_strip.
Qed.

End Normalizer.

(** C4 as worded fails: [_normalize] does not lowercase.  On "Stop!" it
    returns "Stop", where the specification's Normalizer gives "stop". *)
Lemma _normalize_does_not_lowercase :
  _normalize (py "Stop!") = py "Stop"
  /\ spec_Normalizer (py "Stop!") = py "stop"
  /\ _normalize (py "Stop!") <> spec_Normalizer (py "Stop!")
  /\ lower (_normalize (py "Stop!")) <> _normalize (py "Stop!").
Proof.
  repeat apply conj; try reflexivity;
    intros E; vm_compute in E; discriminate E.
Qed.

(* ===================================================================== *)
(** ** Timer expiry, window restart, agent-state resets *)
(* ===================================================================== *)

Section Lifecycle.
Context {U : UnicodeDB}.

(** C5.  When a timer fires: with no window pending the handler returns at
    once, calling nothing and changing nothing; with a window pending it
    calls [ignore_user_speech] (when supplied) if the agent is speaking and
    no callback if the agent is silent, and in both cases the session ends
    Idle. *)
Theorem timer_expiry_default (h : InterruptHandler) (speaking : bool) :
  if _pending_vad h
  then resolutions (trace_of (_on_timer_expired speaking) h)
       = (if speaking && has_ignore_user_speech h
          then [IgnoreUserSpeech] else [])
       /\ Idle (state_after (_on_timer_expired speaking) h)
       /\ timer_calls (trace_of (_on_timer_expired speaking) h)
          = cancel_call (_timer h)
  else _on_timer_expired speaking h = (tt, h, []).
Proof.
  destruct (_pending_vad h) eqn:Hp.
  - unfold trace_of, state_after.
    rewrite (_on_timer_expired_pending speaking h Hp). cbn [fst snd].
    split; [| split].
    + destruct speaking, (has_ignore_user_speech h), (_timer h); reflexivity.
    + apply cleared_Idle.
    + destruct speaking, (has_ignore_user_speech h), (_timer h); reflexivity.
  - now apply _on_timer_expired_idle.
Qed.

(** C6, with the condition it needs.  [on_vad_user_started] on a handler
    whose window is already pending, when the floored window duration fits
    a float (it is below [2^1024 - 2^970] ms), restarts the window:
    afterwards the window is pending, the buffer is empty (so holds nothing
    buffered before the call), the old timer has been cancelled and a newly
    allocated one started in its place; no resolution callback is called.
    The new timer takes the allocator's next identity, so it is a different
    object from the old one whenever the old handle refers to an allocated
    object, as it does in every reachable state ([run_timer_allocated]). *)
Theorem vad_restart_discards_window (h : InterruptHandler) :
  _pending_vad h = true ->
  int_overflows_float (Z.max 50 (validation_window_ms (cfg h))) = false ->
  let h' := state_after on_vad_user_started h in
  let tr := trace_of on_vad_user_started h in
  _pending_vad h' = true
  /\ _transcript_buffer h' = []
  /\ (exists t',
        _timer h' = Some t'
        /\ timer_calls tr = cancel_call (_timer h) ++ [TimerStart t']
        /\ timer_id t' = next_timer_id h
        /\ (timer_allocated h ->
            match _timer h with
            | Some t => timer_id t' <> timer_id t
            | None => True
            end))
  /\ resolutions tr = []
  /\ (timer_allocated h -> timer_allocated h').
Proof.
  intros _ Ho h' tr. subst h' tr. unfold trace_of, state_after.
  pose proof (on_vad_user_started_run h Ho) as E. cbv zeta in E.
  rewrite E. cbn [fst snd _pending_vad _transcript_buffer _timer].
  repeat apply conj; try reflexivity.
  - eexists. repeat apply conj; try reflexivity.
    + destruct (_timer h); reflexivity.
    + unfold timer_allocated. cbn [timer_id].
      destruct (_timer h); [lia | intros _; exact I].
  - destruct (_timer h); reflexivity.
  - intros _. unfold timer_allocated. cbn. lia.
Qed.

(** C8, with the condition it needs.  When the floored window duration
    [max(50, validation_window_ms)] fits a float (it is below
    [2^1024 - 2^970] ms), the timer that [on_vad_user_started] creates and
    starts has that delay in milliseconds, so never less than 50 whatever
    is configured, and a configuration built without the argument has
    [validation_window_ms = 225]. *)
Theorem validation_window_floored_at_50 (h : InterruptHandler)
    (soft hard : option (list str)) :
  int_overflows_float (Z.max 50 (validation_window_ms (cfg h))) = false ->
  let t := {| timer_id := next_timer_id h;
              interval_ms := Z.max 50 (validation_window_ms (cfg h));
              daemon := true |} in
  _timer (state_after on_vad_user_started h) = Some t
  /\ In (TimerStart t) (trace_of on_vad_user_started h)
  /\ (50 <= interval_ms t)%Z
  /\ interval_ms t
     = (if (validation_window_ms (cfg h) <? 50)%Z then 50%Z
        else validation_window_ms (cfg h))
  /\ validation_window_ms (InterruptHandlerConfig_init soft hard None)
     = 225%Z
  /\ Z.max 50 (validation_window_ms
                 (InterruptHandlerConfig_init soft hard None)) = 225%Z.
Proof.
  intros Ho t. subst t. unfold trace_of, state_after.
  pose proof (on_vad_user_started_run h Ho) as E. cbv zeta in E.
  rewrite E. cbn [fst snd _timer interval_ms].
  repeat apply conj; try reflexivity.
  - right. apply in_or_app. right. left. reflexivity.
  - lia.
  - destruct (Z.ltb_spec (validation_window_ms (cfg h)) 50); lia.
Qed.

(** C9.  [agent_started_speaking] and [agent_stopped_speaking] each leave
    the session Idle whatever it was, call none of the three resolution
    callbacks (their only calls are the cancel of a running timer and one
    log line), and change nothing else in the handler. *)
Theorem agent_state_change_resets (h : InterruptHandler) :
  Forall (fun '(m, line) =>
            Idle (state_after m h)
            /\ state_after m h = cleared h
            /\ resolutions (trace_of m h) = []
            /\ trace_of m h = cancel_call (_timer h) ++ [Logger line]
            /\ cfg (state_after m h) = cfg h
            /\ has_ignore_user_speech (state_after m h)
               = has_ignore_user_speech h
            /\ next_timer_id (state_after m h) = next_timer_id h)
         [(agent_started_speaking, LogAgentStartedSpeaking);
          (agent_stopped_speaking, LogAgentStoppedSpeaking)].
Proof.
  constructor; [| constructor; [| constructor]];
    unfold trace_of, state_after;
    rewrite ?agent_started_speaking_run, ?agent_stopped_speaking_run;
    cbn [fst snd]; repeat apply conj; try reflexivity;
    destruct (_timer h); reflexivity.
Qed.

(** C10, with the condition it needs.  If the normalized combined text is
    empty while a window is pending and the agent is speaking, and the empty
    string is not among the configured hard words, then there are no
    tokens, the utterance counts as soft, [ignore_user_speech] is called
    (when supplied), [stop_agent_immediately] is not, and the session ends
    Idle. *)
Theorem empty_utterance_is_ignored (h : InterruptHandler) (now : Time)
    (t : Transcript) :
  _pending_vad h = true ->
  normalized_combined (_transcript_buffer h ++ [t]) = [] ->
  ~ In [] (hard_words (cfg h)) ->
  let norm := normalized_combined (_transcript_buffer h ++ [t]) in
  let tr := trace_of (on_stt_transcript now true t) h in
  split norm = []
  /\ soft_utterance (cfg h) norm
  /\ resolutions tr
     = (if has_ignore_user_speech h then [IgnoreUserSpeech] else [])
  /\ ~ In StopAgentImmediately tr
  /\ Idle (state_after (on_stt_transcript now true t) h).
Proof.
  intros Hp Hnorm Hhard norm tr.
  assert (Hn : ~ hard_word_matches (cfg h) norm).
  { intros (hard & Hin & Hsub). apply str_contains_spec in Hsub.
    subst norm. rewrite Hnorm in Hsub. apply str_contains_nil in Hsub.
    subst hard. contradiction. }
  pose proof (on_stt_transcript_pending now true t h Hp) as E.
  cbv zeta in E. fold norm in E. rewrite (find_no_hard_word Hn) in E.
  subst tr. unfold trace_of, state_after. rewrite E. cbn [fst snd].
  clear E. subst norm. rewrite Hnorm. cbn [split forallb].
  split; [| split; [| split; [| split]]].
  - reflexivity.
  - constructor.
  - destruct (_timer h), (has_ignore_user_speech h); reflexivity.
  - destruct (_timer h), (has_ignore_user_speech h); cbn;
      intuition discriminate.
  - apply cleared_Idle.
Qed.

End Lifecycle.

(* ===================================================================== *)
(** ** Invariants of the session state *)
(* ===================================================================== *)

Section Invariants.
Context {U : UnicodeDB}.

(** After any operation the handler is either Idle or in a newly opened
    window with an empty buffer, or the operation changed nothing. *)
Lemma step_cases (h : InterruptHandler) (op : operation) :
  step h op = cleared h
  \/ step h op = h
  \/ (op = OnVadUserStarted
      /\ _pending_vad (step h op) = true
      /\ _transcript_buffer (step h op) = []
      /\ ((_timer (step h op) = None
           /\ next_timer_id (step h op) = next_timer_id h)
          \/ (next_timer_id (step h op) = S (next_timer_id h)
              /\ exists t, _timer (step h op) = Some t
                           /\ timer_id t = next_timer_id h))).
Proof.
  unfold step, state_after. destruct op as [|now sp t| | |sp]; cbn [method_of].
  - right; right.
    destruct (int_overflows_float
                (Z.max 50 (validation_window_ms (cfg h)))) eqn:Ho.
    + rewrite (on_vad_user_started_raises h Ho). cbn [fst snd].
      do 3 (split; [reflexivity|]). left. split; reflexivity.
    + pose proof (on_vad_user_started_run h Ho) as E.
      cbv zeta in E. rewrite E. cbn [fst snd].
      do 3 (split; [reflexivity|]). right. split; [reflexivity|].
      eexists. split; reflexivity.
  - destruct (_pending_vad h) eqn:Hp.
    + left. pose proof (on_stt_transcript_pending now sp t h Hp) as E.
      cbv zeta in E. now rewrite E.
    + right; left. now rewrite on_stt_transcript_idle.
  - left. now rewrite agent_started_speaking_run.
  - left. now rewrite agent_stopped_speaking_run.
  - destruct (_pending_vad h) eqn:Hp.
    + left. now rewrite _on_timer_expired_pending.
    + right; left. now rewrite _on_timer_expired_idle.
Qed.

Lemma step_buffer_empty (h : InterruptHandler) (op : operation) :
  _transcript_buffer h = [] -> _transcript_buffer (step h op) = [].
Proof.
  intros Hb.
  destruct (step_cases h op) as [E | [E | (_ & _ & E & _)]];
    try rewrite E; auto.
Qed.

Lemma run_buffer_empty (ops : list operation) (h : InterruptHandler) :
  _transcript_buffer h = [] -> _transcript_buffer (run h ops) = [].
Proof.
  revert h. induction ops as [|op ops IH]; intros h Hb; [assumption|].
  apply IH. now apply step_buffer_empty.
Qed.

Lemma step_timer_allocated (h : InterruptHandler) (op : operation) :
  timer_allocated h -> timer_allocated (step h op).
Proof.
  intros Ha.
  destruct (step_cases h op)
    as [E | [E | (_ & _ & _ & [[Et _] | (En & t & Et & Ei)])]].
  - rewrite E. exact I.
  - now rewrite E.
  - unfold timer_allocated. now rewrite Et.
  - unfold timer_allocated. rewrite Et, En, Ei. lia.
Qed.

(** Every handler reached from a new one refers only to allocated timers. *)
Lemma run_timer_allocated (ops : list operation) (h : InterruptHandler) :
  timer_allocated h -> timer_allocated (run h ops).
Proof.
  revert h. induction ops as [|op ops IH]; intros h Ha; [assumption|].
  apply IH. now apply step_timer_allocated.
Qed.

(** C7.  In every state reached from a new handler by any finite sequence
    of operations (VAD start, transcript, agent started or stopped speaking,
    timer expiry), a non-empty buffer implies a pending window; in fact the
    buffer is empty between operations, since a transcript that is buffered
    resolves the window in the same call.  And an operation that takes a
    pending handler to a non-pending one leaves the buffer empty. *)
Theorem buffer_nonempty_only_while_pending (config : InterruptHandlerConfig)
    (ign : bool) (ops : list operation) (h : InterruptHandler)
    (op : operation) :
  buffer_only_while_pending (run (InterruptHandler_init config ign) ops)
  /\ _transcript_buffer (run (InterruptHandler_init config ign) ops) = []
  /\ (_pending_vad h = true ->
      _pending_vad (step h op) = false ->
      _transcript_buffer (step h op) = []).
Proof.
  assert (Hb : _transcript_buffer (run (InterruptHandler_init config ign) ops)
               = []) by now apply run_buffer_empty.
  split; [| split].
  - intros Hne. now rewrite Hb in Hne.
  - exact Hb.
  - intros Hp Hp'.
    destruct (step_cases h op) as [E | [E | (_ & Ep & _)]].
    + now rewrite E.
    + rewrite E in Hp'. congruence.
    + congruence.
Qed.

End Invariants.

(* ===================================================================== *)
(** ** Concrete sessions *)
(* ===================================================================== *)

(** [pending_session] is what a new handler becomes on the first VAD
    start. *)
Example pending_session_reached :
  step (InterruptHandler_init default_cfg true) OnVadUserStarted
  = pending_session.
Proof. reflexivity. Qed.

(** Scenario 4 of the simulation: "yeah okay but wait" while the agent
    speaks; the hard word "wait" wins. *)
Example scenario_mixed_input :
  resolutions
    (trace_of (on_stt_transcript 4%Z true
                 (mkTranscript (py "yeah okay but wait") true 3%Z))
              pending_session)
  = [StopAgentImmediately].
Proof. reflexivity. Qed.

(** A late timer: the window was resolved by a transcript, the expiry
    handler then does nothing. *)
Example stale_timer_is_silent :
  let h := run (InterruptHandler_init default_cfg true)
               [OnVadUserStarted;
                OnSttTranscript 4%Z false
                  (mkTranscript (py "yeah") true 3%Z)] in
  _on_timer_expired true h = (tt, h, []).
Proof. reflexivity. Qed.

Lemma vad_restart_discards_window_witness :
  _pending_vad pending_with_fragment = true
  /\ _transcript_buffer pending_with_fragment
     = [mkTranscript (py "old") false 1%Z]
  /\ _transcript_buffer
       (state_after on_vad_user_started pending_with_fragment) = []
  /\ resolutions (trace_of on_vad_user_started pending_with_fragment) = [].
Proof.
  split; [reflexivity|]. split; [reflexivity|].
  destruct (@vad_restart_discards_window pending_with_fragment
              eq_refl eq_refl)
    as (_ & Hb & _ & Hr & _).
  split; assumption.
Defined.

(** C6 as worded fails when the window is too large for a float.  A new
    handler configured with a window of [2^1024] ms is pending after its
    first VAD start; a second VAD start then leaves it pending, but holding
    no timer: none is started, the call raises [OverflowError]. *)
Lemma vad_restart_with_huge_window_starts_no_timer :
  _pending_vad huge_window_pending = true
  /\ _pending_vad (state_after on_vad_user_started huge_window_pending)
     = true
  /\ _timer (state_after on_vad_user_started huge_window_pending) = None
  /\ timer_calls (trace_of on_vad_user_started huge_window_pending) = []
  /\ trace_of on_vad_user_started huge_window_pending
     = [Logger LogVadUserStart; Raise OverflowError].
Proof. vm_compute. repeat split. Qed.

(** The default window: the timer of the first VAD start is set to 225
    ms. *)
Lemma validation_window_floored_at_50_witness :
  _timer (state_after on_vad_user_started
            (InterruptHandler_init default_cfg true))
  = Some {| timer_id := 0; interval_ms := 225; daemon := true |}.
Proof.
  refine (proj1 (@validation_window_floored_at_50 AsciiDB
                   (InterruptHandler_init default_cfg true) None None _)).
  reflexivity.
Defined.

(** C8 as worded fails for a window too large for a float.  With
    [validation_window_ms = 2^1024], [on_vad_user_started] on a new handler
    schedules no timer at all: it logs, raises [OverflowError] from
    [ms / 1000.0], and leaves [_timer] empty. *)
Lemma huge_window_schedules_no_timer :
  validation_window_ms (cfg huge_window_new) = (2 ^ 1024)%Z
  /\ _timer (state_after on_vad_user_started huge_window_new) = None
  /\ timer_calls (trace_of on_vad_user_started huge_window_new) = []
  /\ trace_of on_vad_user_started huge_window_new
     = [Logger LogVadUserStart; Raise OverflowError].
Proof. vm_compute. repeat split. Qed.

Lemma buffer_nonempty_only_while_pending_witness :
  _pending_vad pending_with_fragment = true
  /\ _pending_vad (step pending_with_fragment AgentStartedSpeaking) = false
  /\ _transcript_buffer (step pending_with_fragment AgentStartedSpeaking)
     = [].
Proof.
  split; [reflexivity|]. split; [reflexivity|].
  apply (proj2 (proj2
    (@buffer_nonempty_only_while_pending AsciiDB default_cfg true
       [OnVadUserStarted] pending_with_fragment AgentStartedSpeaking)));
    reflexivity.
Defined.

(** Only punctuation arrives while the agent speaks: nothing is left after
    normalization and the utterance is ignored. *)
Lemma empty_utterance_is_ignored_witness :
  let t := mkTranscript (py "?!") false 3%Z in
  normalized_combined (_transcript_buffer pending_session ++ [t]) = []
  /\ resolutions (trace_of (on_stt_transcript 4%Z true t) pending_session)
     = [IgnoreUserSpeech].
Proof.
  intros t. split; [reflexivity|].
  destruct (@empty_utterance_is_ignored AsciiDB pending_session 4%Z t)
    as (_ & _ & Hr & _).
  - reflexivity.
  - reflexivity.
  - intros H. vm_compute in H. intuition discriminate.
  - exact Hr.
Defined.

(** C10 as worded fails when the empty string is a configured hard word:
    it is a substring of the empty normalized text, so the hard-word check
    fires first and the agent is stopped instead of the speech being
    ignored, although [ignore_user_speech] is supplied. *)
Lemma empty_hard_word_stops_on_empty_utterance :
  let t := mkTranscript (py "...") false 3%Z in
  let tr := trace_of (on_stt_transcript 4%Z true t) pending_empty_hard in
  hard_words (cfg pending_empty_hard) = [py ""]
  /\ _pending_vad pending_empty_hard = true
  /\ has_ignore_user_speech pending_empty_hard = true
  /\ normalized_combined (_transcript_buffer pending_empty_hard ++ [t]) = []
  /\ resolutions tr = [StopAgentImmediately]
  /\ ~ In IgnoreUserSpeech tr.
Proof.
  intros t tr. repeat apply conj; try reflexivity.
  intros H. vm_compute in H. intuition discriminate.
Qed.

(* ===================================================================== *)
(** ** More about the normalizer and the word lists *)
(* ===================================================================== *)

Section NormalizerMore.
Context {U : UnicodeDB}.

Lemma punct_SP : punct SP = false.
Proof. unfold punct. now rewrite isspace_SP, orb_true_r. Qed.

Lemma re_sub_punct_kept (s : str) :
  Forall (fun c => punct c = false) (re_sub_punct s).
Proof.
  induction s as [|c s IH]; [constructor|].
  unfold re_sub_punct in *. simpl. constructor; [| exact IH].
  destruct (punct c) eqn:E; [apply punct_SP | exact E].
Qed.

Lemma re_sub_punct_fixed (s : str) :
  Forall (fun c => punct c = false) s -> re_sub_punct s = s.
Proof.
  induction 1 as [|c s Hc _ IH]; [reflexivity|].
  unfold re_sub_punct in *. simpl. now rewrite Hc, IH.
Qed.

(** A character of a token is a non-whitespace character of the text. *)
Lemma In_split (s tok : str) (c : char) :
  In tok (split s) -> In c tok -> In c s /\ isspace c = false.
Proof.
  intros Ht Hc.
  assert (H : In c (List.concat (split s))).
  { apply in_concat. now exists tok. }
  rewrite concat_split in H. apply filter_In in H.
  destruct H as [H1 H2]. split; [assumption|].
  now destruct (isspace c).
Qed.

Lemma normalize_kept (s : str) :
  Forall (fun c => punct c = false) (_normalize s).
Proof.
  apply Forall_forall. intros c Hin. unfold _normalize in Hin.
  destruct (In_join _ _ _ Hin) as [[<- | []] | (t & Ht & Hc)];
    [apply punct_SP|].
  destruct (@In_split _ _ _ Ht Hc) as [H _].
  pose proof (re_sub_punct_kept s) as K. rewrite Forall_forall in K. auto.
Qed.

Lemma split_normalize (s : str) :
  split (_normalize s) = split (re_sub_punct s).
Proof. unfold _normalize. apply split_join, split_tokens. Qed.

Lemma filter_nil_forallb {A} (f : A -> bool) (l : list A) :
  filter f l = [] <-> forallb (fun x => negb (f x)) l = true.
Proof.
  induction l as [|x l IH]; simpl; [tauto|].
  destruct (f x); simpl; [split; discriminate | exact IH].
Qed.

Lemma concat_tokens_nil (toks : list str) :
  Forall is_token toks -> List.concat toks = [] -> toks = [].
Proof.
  intros H E. destruct toks as [|x l]; [reflexivity|].
  inversion H as [|? ? [Hne _] _]; subst.
  simpl in E. apply app_eq_nil in E. tauto.
Qed.

Lemma join_tokens_nil (toks : list str) :
  Forall is_token toks -> join [SP] toks = [] -> toks = [].
Proof.
  intros H E. destruct toks as [|x l]; [reflexivity|].
  inversion H as [|? ? [Hne _] _]; subst.
  destruct l; simpl in E; [congruence|].
  apply app_eq_nil in E. tauto.
Qed.

(** X1.  [_normalize] is idempotent: normalizing a normalized text changes
    nothing. *)
Theorem _normalize_idempotent (s : str) :
  _normalize (_normalize s) = _normalize s.
Proof.
  unfold _normalize at 1. cbv zeta.
  rewrite (re_sub_punct_fixed (normalize_kept s)).
  now rewrite split_normalize.
Qed.

(** X2.  [_normalize] returns the empty string exactly on the texts made of
    whitespace and replaced characters only (the empty text among them). *)
Theorem _normalize_empty_iff (s : str) :
  _normalize s = [] <-> forallb (fun c => isspace c || punct c) s = true.
Proof.
  assert (E : forallb (fun c => isspace c || punct c) s = true
              <-> List.concat (split (re_sub_punct s)) = []).
  { rewrite concat_split, filter_re_sub_punct, filter_nil_forallb.
    assert (X : forall c, negb (negb (punct c) && negb (isspace c))
                          = (isspace c || punct c))
      by (intros c; destruct (punct c), (isspace c); reflexivity).
    assert (Y : forallb (fun c => negb (negb (punct c) && negb (isspace c))) s
                = forallb (fun c => isspace c || punct c) s).
    { induction s as [|c s IH]; simpl; [reflexivity|]. now rewrite X, IH. }
    rewrite Y. tauto. }
  rewrite E. pose proof (split_tokens (re_sub_punct s)) as Htok.
  unfold _normalize. split; intros H.
  - now rewrite (join_tokens_nil Htok H).
  - now rewrite (concat_tokens_nil Htok H).
Qed.

(** Every token of a normalized text is a clean word. *)
Lemma normalized_tokens_clean (s tok : str) :
  In tok (split (_normalize s)) -> clean_word tok = true.
Proof.
  intros Ht.
  pose proof (split_tokens (_normalize s)) as Htok.
  rewrite Forall_forall in Htok. destruct (Htok tok Ht) as [Hne _].
  unfold clean_word. destruct tok as [|c0 tok0] eqn:Etok; [congruence|].
  rewrite <- Etok in *. apply forallb_forall. intros c Hc.
  destruct (@In_split _ _ _ Ht Hc) as [Hin Hs].
  pose proof (normalize_kept s) as K. rewrite Forall_forall in K.
  now rewrite Hs, (K c Hin).
Qed.

Lemma list_contains_filter (g : str -> bool) (tok : str) (l : list str) :
  g tok = true ->
  list_contains tok (filter g l) = list_contains tok l.
Proof.
  intros Hg. induction l as [|w l IH]; [reflexivity|].
  simpl. destruct (g w) eqn:Ew; simpl; rewrite IH; [reflexivity|].
  destruct (str_eqb tok w) eqn:E; [| reflexivity].
  apply str_eqb_eq in E. subst. congruence.
Qed.

(** A text with only kept characters and plain spaces contains [w] only if
    [w] is a clean phrase. *)
Lemma contains_in_normalized (w s : str) :
  str_contains w (_normalize s) = true -> clean_phrase w = true.
Proof.
  intros H. apply str_contains_spec in H. destruct H as (a & b & E).
  apply forallb_forall. intros c Hc.
  assert (Hin : In c (_normalize s)).
  { rewrite E. apply in_or_app. right. apply in_or_app. now left. }
  pose proof (normalize_kept s) as K. rewrite Forall_forall in K.
  rewrite (K c Hin). simpl.
  destruct (isspace c) eqn:Hs; [| reflexivity].
  unfold _normalize in Hin.
  rewrite (@space_in_join _ _ c (split_tokens _) Hin Hs). reflexivity.
Qed.

Lemma find_filter_same (f g : str -> bool) (l : list str) :
  (forall w, f w = true -> g w = true) ->
  find f (filter g l) = find f l.
Proof.
  intros H. induction l as [|w l IH]; [reflexivity|].
  simpl. destruct (g w) eqn:Eg; simpl.
  - now rewrite IH.
  - destruct (f w) eqn:Ef; [| exact IH].
    rewrite (H w Ef) in Eg. discriminate.
Qed.

End NormalizerMore.

(* ===================================================================== *)
(** ** Which configured words can ever matter *)
(* ===================================================================== *)

Section Words.
Context {U : UnicodeDB}.

Lemma forallb_ext_in {A} (f g : A -> bool) (l : list A) :
  (forall x, In x l -> f x = g x) -> forallb f l = forallb g l.
Proof.
  induction l as [|x l IH]; intros H; [reflexivity|].
  simpl. rewrite (H x (or_introl eq_refl)), IH; [reflexivity|].
  intros y Hy. apply H. now right.
Qed.

(** The first token of a text that starts with a non-whitespace character
    is a prefix of the text. *)
Lemma split_head_prefix (s t : str) (ts : list str) :
  starts_clean s -> split s = t :: ts -> exists b, s = t ++ b.
Proof.
  revert t ts. induction s as [|c r IH]; intros t ts Hs E; [discriminate|].
  simpl in Hs. rewrite split_cons, Hs in E.
  destruct r as [|d r'].
  - injection E as <- _. now exists [].
  - destruct (isspace d) eqn:Hd.
    + injection E as <- _. now exists (d :: r').
    + destruct (split (d :: r')) as [|t' ts'] eqn:E'.
      * injection E as <- _. now exists (d :: r').
      * injection E as <- _.
        destruct (IH t' ts' Hd eq_refl) as (b & ->). now exists b.
Qed.

(** A token occurs in the text it was split from. *)
Lemma token_substring (s tok : str) :
  In tok (split s) -> exists a b, s = a ++ tok ++ b.
Proof.
  induction s as [|c r IH]; intros H; [destruct H|].
  assert (R : In tok (split r) -> exists a b, c :: r = a ++ tok ++ b).
  { intros H'. destruct (IH H') as (a & b & ->). now exists (c :: a), b. }
  rewrite split_cons in H.
  destruct (isspace c) eqn:Hc; [now apply R|].
  destruct r as [|d r'].
  - destruct H as [<- | []]. now exists [], [].
  - destruct (isspace d) eqn:Hd.
    + destruct H as [<- | H]; [now exists [], (d :: r') | now apply R].
    + destruct (split (d :: r')) as [|t' ts'] eqn:E'.
      * destruct H as [<- | []]. now exists [], (d :: r').
      * destruct H as [<- | H].
        -- destruct (split_head_prefix (d :: r') Hd E') as (b & ->).
           now exists [], b.
        -- apply R. now right.
Qed.

(** A pending window is resolved by the hard-word path whenever some hard
    word matches. *)
Lemma hard_match_resolutions (h : InterruptHandler) (now : Time)
    (speaking : bool) (t : Transcript) :
  _pending_vad h = true ->
  hard_word_matches (cfg h)
    (normalized_combined (_transcript_buffer h ++ [t])) ->
  resolutions (trace_of (on_stt_transcript now speaking t) h)
    = [StopAgentImmediately]
  /\ Idle (state_after (on_stt_transcript now speaking t) h).
Proof.
  intros Hp Hm. destruct (find_hard_word Hm) as [hard Hf].
  pose proof (on_stt_transcript_pending now speaking t h Hp) as E.
  cbv zeta in E. rewrite Hf in E.
  unfold trace_of, state_after. rewrite E. cbn [fst snd].
  split; [| apply cleared_Idle].
  destruct (_timer h); reflexivity.
Qed.

(** X3.  Configured words that cannot occur in normalized text never
    matter: a soft word that is empty or contains whitespace or a replaced
    character (the default "uh huh" is one), and a hard word that contains
    a replaced character or whitespace other than a plain space.  With such
    words removed from the configuration, [on_stt_transcript] makes exactly
    the same calls on every transcript in every state. *)
Theorem unclean_words_never_matter (h : InterruptHandler) (now : Time)
    (speaking : bool) (t : Transcript) :
  trace_of (on_stt_transcript now speaking t)
    (with_words (filter clean_word (soft_words (cfg h)))
                (filter clean_phrase (hard_words (cfg h))) h)
  = trace_of (on_stt_transcript now speaking t) h.
Proof.
  set (h' := with_words _ _ h). unfold trace_of.
  destruct (_pending_vad h) eqn:Hp.
  - pose proof (on_stt_transcript_pending now speaking t h Hp) as E.
    pose proof (on_stt_transcript_pending now speaking t h' Hp) as E'.
    cbv zeta in E, E'. rewrite E, E'. cbn [snd]. clear E E'.
    subst h'. cbn [with_words cfg _timer _transcript_buffer soft_words
                   hard_words has_ignore_user_speech].
    unfold normalized_combined.
    rewrite (find_filter_same
               (fun w => str_contains w
                  (_normalize (combined_text (_transcript_buffer h ++ [t]))))
               clean_phrase (hard_words (cfg h))
               (fun w => @contains_in_normalized _ w _)).
    rewrite (forallb_ext_in
               (fun tok => list_contains tok
                             (filter clean_word (soft_words (cfg h)))
                           || (List.length tok <=? 2)%nat)
               (fun tok => list_contains tok (soft_words (cfg h))
                           || (List.length tok <=? 2)%nat)); [reflexivity|].
    intros tok Htok.
    now rewrite (@list_contains_filter clean_word tok (soft_words (cfg h))
                   (@normalized_tokens_clean _ _ _ Htok)).
  - rewrite (on_stt_transcript_idle now speaking t h Hp).
    now rewrite (on_stt_transcript_idle now speaking t h' Hp).
Qed.

(** X4.  Hard words match inside longer words: if any token of the
    normalized text of a pending window contains a configured hard word
    (as "know" contains "no"), the only resolution callback is
    [stop_agent_immediately], also when the agent is silent, so the speech
    is not passed to [process_user_speech_normally]. *)
Theorem hard_word_inside_token_stops (h : InterruptHandler) (now : Time)
    (speaking : bool) (t : Transcript) (tok hard : str) :
  _pending_vad h = true ->
  In tok (split (normalized_combined (_transcript_buffer h ++ [t]))) ->
  In hard (hard_words (cfg h)) ->
  str_contains hard tok = true ->
  resolutions (trace_of (on_stt_transcript now speaking t) h)
    = [StopAgentImmediately]
  /\ Idle (state_after (on_stt_transcript now speaking t) h).
Proof.
  intros Hp Htok Hhard Hsub. apply hard_match_resolutions; [assumption|].
  exists hard. split; [assumption|].
  destruct (token_substring _ _ Htok) as (a & b & ->).
  apply str_contains_spec in Hsub. destruct Hsub as (a' & b' & ->).
  exists (a ++ a'), (b' ++ b). now rewrite <- !app_assoc.
Qed.

(** X5.  An empty hard word matches every text: with the empty string
    among the configured hard words, every transcript in a pending window
    stops the agent. *)
Theorem empty_hard_word_always_stops (h : InterruptHandler) (now : Time)
    (speaking : bool) (t : Transcript) :
  _pending_vad h = true ->
  In [] (hard_words (cfg h)) ->
  resolutions (trace_of (on_stt_transcript now speaking t) h)
    = [StopAgentImmediately]
  /\ Idle (state_after (on_stt_transcript now speaking t) h).
Proof.
  intros Hp Hin. apply hard_match_resolutions; [assumption|].
  exists []. split; [assumption|]. now exists [], (normalized_combined
    (_transcript_buffer h ++ [t])).
Qed.

End Words.

(** The agent is silent and "I know." arrives: "no" in "know" stops the
    agent and nothing is processed. *)
Lemma hard_word_inside_token_stops_witness :
  let t := mkTranscript (py "I know.") true 3%Z in
  split (normalized_combined (_transcript_buffer pending_session ++ [t]))
  = [py "i"; py "know"]
  /\ resolutions (trace_of (on_stt_transcript 4%Z false t) pending_session)
     = [StopAgentImmediately].
Proof.
  intros t. split; [reflexivity|].
  refine (proj1 (@hard_word_inside_token_stops AsciiDB pending_session 4%Z
                   false t (py "know") (py "no") _ _ _ _)).
  - reflexivity.
  - right; left; reflexivity.
  - right; right; left; reflexivity.
  - reflexivity.
Defined.

Lemma empty_hard_word_always_stops_witness :
  let t := mkTranscript (py "yeah") false 3%Z in
  resolutions (trace_of (on_stt_transcript 4%Z true t) pending_empty_hard)
  = [StopAgentImmediately].
Proof.
  intros t.
  refine (proj1 (@empty_hard_word_always_stops AsciiDB pending_empty_hard
                   4%Z true t _ _)).
  - reflexivity.
  - left; reflexivity.
Defined.

(* ===================================================================== *)
(** ** One operation, seen from outside *)
(* ===================================================================== *)

Ltac trace_cases :=
  intros;
  repeat match goal with
         | H : _ \/ _ |- _ => destruct H
         | H : False |- _ => destruct H
         | H : @eq event _ _ |- _ =>
             first [discriminate H | injection H as <-]
         end;
  try solve [ do 3 eexists; repeat split;
              first [reflexivity | intros; congruence]
            | eauto 8
            | intuition congruence ].

Section Steps.
Context {U : UnicodeDB}.

(** What any one operation does to the handler. *)
Lemma step_shape (h : InterruptHandler) (op : operation) :
  cfg (step h op) = cfg h
  /\ has_ignore_user_speech (step h op) = has_ignore_user_speech h
  /\ _pending_vad (step h op) = is_vad_start op
  /\ (if is_vad_start op
      then _transcript_buffer (step h op) = []
           /\ if int_overflows_float
                   (Z.max 50 (validation_window_ms (cfg h)))
              then _timer (step h op) = None
                   /\ next_timer_id (step h op) = next_timer_id h
              else _timer (step h op)
                   = Some {| timer_id := next_timer_id h;
                             interval_ms :=
                               Z.max 50 (validation_window_ms (cfg h));
                             daemon := true |}
                   /\ next_timer_id (step h op) = S (next_timer_id h)
      else step h op = cleared h
           \/ (step h op = h /\ _pending_vad h = false)).
Proof.
  unfold step, state_after.
  destruct op as [|now sp t| | |sp]; cbn [method_of is_vad_start].
  - destruct (int_overflows_float
                (Z.max 50 (validation_window_ms (cfg h)))) eqn:Ho.
    + rewrite (on_vad_user_started_raises h Ho). cbn [fst snd].
      repeat split.
    + pose proof (on_vad_user_started_run h Ho) as E. cbv zeta in E.
      rewrite E. cbn [fst snd]. repeat split.
  - destruct (_pending_vad h) eqn:Hp.
    + pose proof (on_stt_transcript_pending now sp t h Hp) as E.
      cbv zeta in E. rewrite E. cbn. auto.
    + rewrite (on_stt_transcript_idle now sp t h Hp). cbn. auto 6.
  - rewrite agent_started_speaking_run. cbn. auto.
  - rewrite agent_stopped_speaking_run. cbn. auto.
  - destruct (_pending_vad h) eqn:Hp.
    + rewrite (_on_timer_expired_pending sp h Hp). cbn. auto.
    + rewrite (_on_timer_expired_idle sp h Hp). cbn. auto 6.
Qed.

Lemma run_snoc (h : InterruptHandler) (ops : list operation)
    (op : operation) :
  run h (ops ++ [op]) = step (run h ops) op.
Proof. unfold run. now rewrite fold_left_app. Qed.

(** X6.  Only a VAD start leaves a window pending: after any other
    operation (a transcript, an agent-state change, a timer expiry) no
    window is pending, whatever the state before. *)
Theorem pending_only_after_vad_start (h : InterruptHandler)
    (op : operation) :
  _pending_vad (step h op) = true <-> op = OnVadUserStarted.
Proof.
  destruct (step_shape h op) as (_ & _ & -> & _).
  destruct op; cbn; split; congruence.
Qed.

(** X7.  Once a window is closed, transcripts are not classified: after
    any operation other than a VAD start, [on_stt_transcript] passes its
    argument unchanged to [process_user_speech_normally], whatever its text
    and whether or not the agent is speaking, and leaves the handler as it
    is. *)
Theorem transcript_outside_window_is_forwarded (h : InterruptHandler)
    (op : operation) (now : Time) (speaking : bool) (t : Transcript) :
  is_vad_start op = false ->
  on_stt_transcript now speaking t (step h op)
  = (tt, step h op,
     [Logger (LogSttNoVadPending (text t)); ProcessUserSpeechNormally t]).
Proof.
  intros Hop. apply on_stt_transcript_idle.
  destruct (step_shape h op) as (_ & _ & -> & _). exact Hop.
Qed.

(** X8.  Fragments are never accumulated: in every state reached from a
    new handler the buffer is empty when a transcript arrives, so the text
    that is classified and processed is that of the arriving transcript
    alone, lowercased and stripped. *)
Theorem combined_text_is_one_fragment (config : InterruptHandlerConfig)
    (ign : bool) (ops : list operation) (t : Transcript) :
  let h := run (InterruptHandler_init config ign) ops in
  combined_text (_transcript_buffer h ++ [t]) = strip (lower (text t))
  /\ normalized_combined (_transcript_buffer h ++ [t])
     = _normalize (strip (lower (text t))).
Proof.
  cbv zeta. unfold normalized_combined.
  rewrite (@run_buffer_empty _ ops (InterruptHandler_init config ign) eq_refl).
  split; reflexivity.
Qed.

(** X9.  No operation makes more than one resolution call, and each call
    has its cause: [stop_agent_immediately] is only ever called for a
    transcript in a pending window; [ignore_user_speech] only when it was
    supplied, a window is pending and the agent is reported speaking, for a
    transcript or a timer expiry; [process_user_speech_normally] only for a
    transcript, and in a pending window only when the agent is reported
    silent. *)
Theorem resolution_calls_have_a_cause (h : InterruptHandler)
    (op : operation) :
  let tr := trace_of (method_of op) h in
  (List.length (resolutions tr) <= 1)%nat
  /\ (In StopAgentImmediately tr ->
      _pending_vad h = true
      /\ exists now sp t, op = OnSttTranscript now sp t)
  /\ (In IgnoreUserSpeech tr ->
      _pending_vad h = true /\ has_ignore_user_speech h = true
      /\ ((exists now t, op = OnSttTranscript now true t)
          \/ op = TimerExpired true))
  /\ (forall x, In (ProcessUserSpeechNormally x) tr ->
      exists now sp t, op = OnSttTranscript now sp t
                       /\ is_final x = is_final t
                       /\ (_pending_vad h = true -> sp = false)).
Proof.
  cbv zeta. unfold trace_of.
  destruct op as [|now sp t| | |sp]; cbn [method_of].
  - destruct (int_overflows_float
                (Z.max 50 (validation_window_ms (cfg h)))) eqn:Ho.
    + rewrite (on_vad_user_started_raises h Ho). cbn [snd].
      destruct (_timer h); cbn; repeat split; try lia; trace_cases.
    + pose proof (on_vad_user_started_run h Ho) as E. cbv zeta in E.
      rewrite E. cbn [snd]. destruct (_timer h); cbn;
        repeat split; try lia; trace_cases.
  - destruct (_pending_vad h) eqn:Hp.
    + pose proof (on_stt_transcript_pending now sp t h Hp) as E.
      cbv zeta in E. rewrite E. cbn [snd]. clear E.
      destruct (find _ (hard_words (cfg h))); [| destruct sp;
        [destruct (forallb _ _); [destruct (has_ignore_user_speech h) eqn:Hi|]|]];
        destruct (_timer h); cbn; repeat split; try lia; trace_cases.
    + rewrite (on_stt_transcript_idle now sp t h Hp). cbn.
      repeat split; try lia; trace_cases.
  - rewrite agent_started_speaking_run. cbn [snd]. destruct (_timer h); cbn;
      repeat split; try lia; trace_cases.
  - rewrite agent_stopped_speaking_run. cbn [snd]. destruct (_timer h); cbn;
      repeat split; try lia; trace_cases.
  - destruct (_pending_vad h) eqn:Hp.
    + rewrite (_on_timer_expired_pending sp h Hp). cbn [snd].
      destruct sp; [destruct (has_ignore_user_speech h) eqn:Hi|];
        destruct (_timer h); cbn; repeat split; try lia; trace_cases.
    + rewrite (_on_timer_expired_idle sp h Hp). cbn.
      repeat split; try lia; trace_cases.
Qed.

End Steps.

(** After a transcript has closed the window, "stop" is just forwarded. *)
Lemma transcript_outside_window_is_forwarded_witness :
  let first := OnSttTranscript 4%Z true (mkTranscript (py "okay") false 3%Z) in
  let t := mkTranscript (py "stop") true 5%Z in
  resolutions (trace_of (on_stt_transcript 6%Z true t)
                        (step pending_session first))
  = [ProcessUserSpeechNormally t].
Proof.
  intros first t. unfold trace_of.
  rewrite (@transcript_outside_window_is_forwarded AsciiDB pending_session
             first 6%Z true t eq_refl).
  reflexivity.
Defined.

(* ===================================================================== *)
(** ** Whole runs *)
(* ===================================================================== *)

Section WholeRuns.
Context {U : UnicodeDB}.

Lemma uncancelled_app (live : list nat) (tr1 tr2 : list event) :
  uncancelled_timers live (tr1 ++ tr2)
  = uncancelled_timers (uncancelled_timers live tr1) tr2.
Proof. unfold uncancelled_timers. apply fold_left_app. Qed.

Lemma uncancelled_no_timer_call (live : list nat) (tr : list event) :
  timer_calls tr = [] -> uncancelled_timers live tr = live.
Proof.
  revert live. induction tr as [|e tr IH]; intros live H; [reflexivity|].
  destruct e; cbn in H; try discriminate; cbn; now apply IH.
Qed.

Lemma uncancelled_cancel_held (h : InterruptHandler) :
  uncancelled_timers (held_timer h) (cancel_call (_timer h)) = [].
Proof.
  unfold held_timer, cancel_call. destruct (_timer h); [| reflexivity].
  cbn. now rewrite Nat.eqb_refl.
Qed.

Lemma uncancelled_Logger (live : list nat) (m : log_msg)
    (tr : list event) :
  uncancelled_timers live (Logger m :: tr) = uncancelled_timers live tr.
Proof. reflexivity. Qed.

(** One operation keeps the uncancelled timers equal to the held one. *)
Lemma step_uncancelled (h : InterruptHandler) (op : operation) :
  uncancelled_timers (held_timer h) (trace_of (method_of op) h)
  = held_timer (step h op).
Proof.
  unfold step, state_after, trace_of.
  destruct op as [|now sp t| | |sp]; cbn [method_of].
  - destruct (int_overflows_float
                (Z.max 50 (validation_window_ms (cfg h)))) eqn:Ho.
    + rewrite (on_vad_user_started_raises h Ho). cbn [fst snd].
      rewrite uncancelled_Logger, uncancelled_app, uncancelled_cancel_held.
      reflexivity.
    + pose proof (on_vad_user_started_run h Ho) as E. cbv zeta in E.
      rewrite E. cbn [fst snd].
      rewrite uncancelled_Logger, uncancelled_app, uncancelled_cancel_held.
      reflexivity.
  - destruct (_pending_vad h) eqn:Hp.
    + pose proof (on_stt_transcript_pending now sp t h Hp) as E.
      cbv zeta in E. rewrite E. cbn [fst snd]. clear E.
      rewrite uncancelled_Logger, uncancelled_app, uncancelled_cancel_held.
      apply uncancelled_no_timer_call.
      destruct (find _ (hard_words (cfg h))); [reflexivity|].
      destruct sp; [| reflexivity].
      destruct (forallb _ _); [| reflexivity].
      destruct (has_ignore_user_speech h); reflexivity.
    + rewrite (on_stt_transcript_idle now sp t h Hp). reflexivity.
  - rewrite agent_started_speaking_run. cbn [fst snd].
    rewrite uncancelled_app, uncancelled_cancel_held. reflexivity.
  - rewrite agent_stopped_speaking_run. cbn [fst snd].
    rewrite uncancelled_app, uncancelled_cancel_held. reflexivity.
  - destruct (_pending_vad h) eqn:Hp.
    + rewrite (_on_timer_expired_pending sp h Hp). cbn [fst snd].
      rewrite uncancelled_Logger, uncancelled_app.
      match goal with
      | |- uncancelled_timers (uncancelled_timers ?l ?tr) _ = _ =>
          assert (E : uncancelled_timers l tr = l)
      end.
      { apply uncancelled_no_timer_call. destruct sp; [| reflexivity].
        destruct (has_ignore_user_speech h); reflexivity. }
      rewrite E. apply uncancelled_cancel_held.
    + rewrite (_on_timer_expired_idle sp h Hp). reflexivity.
Qed.

(** X10.  At most one timer is ever left running: over any sequence of
    operations, the timers that were started and not cancelled since are
    exactly the one the handler holds in [_timer] (none when it holds
    none), provided that was so at the start, as it is for a new handler.
    Every start of a timer is preceded by the cancel of the previous one,
    and every resolution cancels the current one. *)
Theorem one_uncancelled_timer (h : InterruptHandler)
    (ops : list operation) :
  uncancelled_timers (held_timer h) (trace_from h ops)
  = held_timer (run h ops)
  /\ (List.length (held_timer (run h ops)) <= 1)%nat.
Proof.
  split.
  - revert h. induction ops as [|op ops IH]; intros h; [reflexivity|].
    cbn [trace_from]. rewrite uncancelled_app, step_uncancelled.
    apply IH.
  - unfold held_timer. destruct (_timer (run h ops)); cbn; lia.
Qed.

Lemma count_app {A} (f : A -> bool) (l1 l2 : list A) :
  List.length (filter f (l1 ++ l2))
  = (List.length (filter f l1) + List.length (filter f l2))%nat.
Proof. now rewrite filter_app, length_app. Qed.

(** One operation makes at most one stop-or-ignore call, and only by
    using up a pending window. *)
Lemma step_stop_or_ignore (h : InterruptHandler) (op : operation) :
  (List.length (filter is_stop_or_ignore (trace_of (method_of op) h))
   + (if _pending_vad (step h op) then 1 else 0)
   <= (if is_vad_start op then 1 else 0)
      + (if _pending_vad h then 1 else 0))%nat.
Proof.
  destruct (step_shape h op) as (_ & _ & -> & _).
  unfold trace_of.
  destruct op as [|now sp t| | |sp]; cbn [method_of is_vad_start].
  - destruct (int_overflows_float
                (Z.max 50 (validation_window_ms (cfg h)))) eqn:Ho.
    + rewrite (on_vad_user_started_raises h Ho). cbn [snd].
      destruct (_timer h), (_pending_vad h); cbn; lia.
    + pose proof (on_vad_user_started_run h Ho) as E. cbv zeta in E.
      rewrite E. cbn [snd]. destruct (_timer h), (_pending_vad h); cbn; lia.
  - destruct (_pending_vad h) eqn:Hp.
    + pose proof (on_stt_transcript_pending now sp t h Hp) as E.
      cbv zeta in E. rewrite E. cbn [snd]. clear E.
      destruct (find _ (hard_words (cfg h))); [| destruct sp;
        [destruct (forallb _ _); [destruct (has_ignore_user_speech h)|]|]];
        destruct (_timer h); cbn; lia.
    + rewrite (on_stt_transcript_idle now sp t h Hp). cbn. lia.
  - rewrite agent_started_speaking_run. cbn [snd].
    destruct (_timer h), (_pending_vad h); cbn; lia.
  - rewrite agent_stopped_speaking_run. cbn [snd].
    destruct (_timer h), (_pending_vad h); cbn; lia.
  - destruct (_pending_vad h) eqn:Hp.
    + rewrite (_on_timer_expired_pending sp h Hp). cbn [snd].
      destruct sp; [destruct (has_ignore_user_speech h)|];
        destruct (_timer h); cbn; lia.
    + rewrite (_on_timer_expired_idle sp h Hp). cbn. lia.
Qed.

(** X11.  One decision per window at most: over any sequence of
    operations, the calls to [stop_agent_immediately] and
    [ignore_user_speech] together number at most the VAD starts in the
    sequence, plus one if a window was pending at the start.  For a new
    handler the bound is the number of VAD starts. *)
Theorem decisions_bounded_by_vad_starts (h : InterruptHandler)
    (ops : list operation) :
  (List.length (filter is_stop_or_ignore (trace_from h ops))
   <= List.length (filter is_vad_start ops)
      + (if _pending_vad h then 1 else 0))%nat.
Proof.
  assert (G : forall ops h,
    (List.length (filter is_stop_or_ignore (trace_from h ops))
     + (if _pending_vad (run h ops) then 1 else 0)
     <= List.length (filter is_vad_start ops)
        + (if _pending_vad h then 1 else 0))%nat).
  { clear. induction ops as [|op ops IH]; intros h; [cbn; lia|].
    cbn [trace_from]. rewrite count_app.
    change (run h (op :: ops)) with (run (step h op) ops).
    specialize (IH (step h op)).
    pose proof (step_stop_or_ignore h op) as S.
    cbn [filter]. destruct (is_vad_start op); cbn [List.length] in *; lia. }
  specialize (G ops h). lia.
Qed.

(** X12.  The shape of every reachable state.  After any sequence of
    operations on a new handler: the configuration and the optional
    callback are the ones given at construction; the buffer is empty; a
    window is pending exactly when the last operation was a VAD start; with
    no window pending the handler holds no timer; with a window pending it
    holds one, a daemon set to [max(50, validation_window_ms)]
    milliseconds, when that duration fits a float, and none when it does
    not (the VAD start then raised [OverflowError]). *)
Theorem reachable_state_shape (config : InterruptHandlerConfig)
    (ign : bool) (ops : list operation) :
  let h := run (InterruptHandler_init config ign) ops in
  cfg h = config
  /\ has_ignore_user_speech h = ign
  /\ _transcript_buffer h = []
  /\ _pending_vad h = match rev ops with
                      | op :: _ => is_vad_start op
                      | [] => false
                      end
  /\ if _pending_vad h
     then if int_overflows_float
               (Z.max 50 (validation_window_ms config))
          then _timer h = None
          else exists t, _timer h = Some t
                         /\ interval_ms t
                            = Z.max 50 (validation_window_ms config)
                         /\ daemon t = true
     else _timer h = None.
Proof.
  cbv zeta. induction ops as [|op ops IH] using rev_ind.
  - cbn. repeat split.
  - rewrite run_snoc, rev_app_distr. cbn [rev app].
    set (h := run (InterruptHandler_init config ign) ops) in *.
    destruct IH as (Hc & Hi & Hb & _ & Ht).
    destruct (step_shape h op) as (Ec & Ei & Ep & Es).
    rewrite Ec, Ei, Ep, Hc, Hi. repeat apply conj; try reflexivity.
    + destruct (is_vad_start op).
      * tauto.
      * destruct Es as [-> | [-> _]]; [reflexivity | assumption].
    + destruct (is_vad_start op).
      * destruct Es as (_ & Es). rewrite Hc in Es.
        destruct (int_overflows_float _).
        -- tauto.
        -- destruct Es as [-> _]. eexists. repeat split.
      * destruct Es as [-> | [-> Hp]]; [reflexivity|].
        now rewrite Hp in Ht.
Qed.

(** X13.  [_clear_pending] is idempotent: run on the state it leaves, it
    changes nothing and makes no call, so no timer is cancelled twice. *)
Theorem _clear_pending_idempotent (h : InterruptHandler) :
  state_after _clear_pending (state_after _clear_pending h)
  = state_after _clear_pending h
  /\ trace_of _clear_pending (state_after _clear_pending h) = [].
Proof.
  unfold state_after, trace_of. rewrite !_clear_pending_run. split; reflexivity.
Qed.

(** X14.  The word lists of a configuration are never empty: an argument
    that is left out and an empty list both give the (lowercased) default
    list, so passing [[]] does not switch the soft or the hard words off;
    any other list is kept word for word, lowercased. *)
Theorem config_word_lists_never_empty (soft hard : option (list str))
    (window : option Z) :
  soft_words (InterruptHandlerConfig_init soft hard window) <> []
  /\ hard_words (InterruptHandlerConfig_init soft hard window) <> []
  /\ InterruptHandlerConfig_init (Some []) (Some []) window
     = InterruptHandlerConfig_init None None window
  /\ match hard with
     | Some (w :: l) =>
         hard_words (InterruptHandlerConfig_init soft hard window)
         = map lower (w :: l)
     | _ =>
         hard_words (InterruptHandlerConfig_init soft hard window)
         = map lower default_hard_words
     end
  /\ match soft with
     | Some (w :: l) =>
         soft_words (InterruptHandlerConfig_init soft hard window)
         = map lower (w :: l)
     | _ =>
         soft_words (InterruptHandlerConfig_init soft hard window)
         = map lower default_soft_words
     end.
Proof.
  repeat apply conj.
  - destruct soft as [[|w l]|]; discriminate.
  - destruct hard as [[|w l]|]; discriminate.
  - reflexivity.
  - destruct hard as [[|w l]|]; reflexivity.
  - destruct soft as [[|w l]|]; reflexivity.
Qed.

End WholeRuns.

(* ===================================================================== *)
(** ** Windows too large for a float *)
(* ===================================================================== *)

(** The floored duration fits a float exactly when the configured window
    is below [2^1024 - 2^970]. *)
Lemma window_fits_float (w : Z) :
  int_overflows_float (Z.max 50 w) = false <-> (w < FLOAT_OVERFLOW)%Z.
Proof.
  assert (B : (50 < FLOAT_OVERFLOW)%Z) by (vm_compute; reflexivity).
  unfold int_overflows_float. rewrite Z.leb_gt.
  generalize dependent FLOAT_OVERFLOW. intros T B. lia.
Qed.

(** X15.  A window too large for a float breaks the VAD start: when
    [max(50, validation_window_ms)] is [2^1024 - 2^970] or more,
    [on_vad_user_started] opens the window (pending, buffer empty) and
    cancels the timer it held, then raises [OverflowError] from
    [ms / 1000.0]: no timer is created or started and no resolution
    callback is called, so the window is left pending with nothing set to
    time it out. *)
Theorem vad_start_raises_on_huge_window (h : InterruptHandler) :
  int_overflows_float (Z.max 50 (validation_window_ms (cfg h))) = true ->
  let h' := state_after on_vad_user_started h in
  let tr := trace_of on_vad_user_started h in
  _pending_vad h' = true
  /\ _transcript_buffer h' = []
  /\ _timer h' = None
  /\ next_timer_id h' = next_timer_id h
  /\ tr = Logger LogVadUserStart :: cancel_call (_timer h)
          ++ [Raise OverflowError]
  /\ timer_calls tr = cancel_call (_timer h)
  /\ resolutions tr = [].
Proof.
  intros Ho h' tr. subst h' tr. unfold state_after, trace_of.
  rewrite (on_vad_user_started_raises h Ho). cbn [fst snd].
  repeat apply conj; try reflexivity; destruct (_timer h); reflexivity.
Qed.

Lemma vad_start_raises_on_huge_window_witness :
  trace_of on_vad_user_started huge_window_new
  = [Logger LogVadUserStart; Raise OverflowError]
  /\ _pending_vad (state_after on_vad_user_started huge_window_new) = true
  /\ _timer (state_after on_vad_user_started huge_window_new) = None.
Proof.
  destruct (@vad_start_raises_on_huge_window huge_window_new)
    as (Hp & _ & Ht & _ & Htr & _).
  - vm_compute. reflexivity.
  - repeat split; assumption.
Defined.
